(** * cwlogs: the log-event model of [lib/event.go]

    A shallow embedding of the event parser ([SlogEvent.UnmarshalJSON],
    [NewEvent], [ParseAWSTimestamp]), of the stream shortening view
    ([TaskShort]) and of the creation-time ordering ([ByCreationTime]),
    with the properties the specification states about them.

    Go strings are byte strings; they are [string]s here (one [ascii] per
    byte).  A Go [error] result is an [option] ([None] when the error is
    not nil); a run-time panic is the [Panics] outcome. *)

From Stdlib Require Import ZArith Ascii String.
From stdpp Require Import gmap strings list fin_maps sorting.

Local Open Scope Z_scope.

(* ================================================================== *)
(** * Bytes and text *)

Module text.

(** The double quote, byte 34. *)
Definition dq : ascii := "034"%char.

Definition code (c : ascii) : N := N_of_ascii c.

Definition in_range (lo hi : ascii) (c : ascii) : bool :=
  ((code lo <=? code c) && (code c <=? code hi))%N.

Definition is_digit (c : ascii) : bool := in_range "0" "9" c.

Definition is_hex (c : ascii) : bool :=
  is_digit c || in_range "a" "f" c || in_range "A" "F" c.

(** The POSIX class [[:alnum:]]: ASCII letters and digits. *)
Definition is_alnum (c : ascii) : bool :=
  is_digit c || in_range "a" "z" c || in_range "A" "Z" c.

Fixpoint forallb (p : ascii → bool) (s : string) : bool :=
  match s with
  | EmptyString => true
  | String c r => p c && forallb p r
  end.

(** [strip p s] removes the literal prefix [p] from [s]. *)
Fixpoint strip (p s : string) : option string :=
  match p with
  | EmptyString => Some s
  | String a p' =>
      match s with
      | String b s' => if Ascii.eqb a b then strip p' s' else None
      | EmptyString => None
      end
  end.

(** The part of [s] in front of its suffix [rest]. *)
Definition consumed (s rest : string) : string :=
  substring 0 (String.length s - String.length rest) s.

(** Writes a text with single quotes for double quotes, so that JSON
    samples stay readable. *)
Fixpoint js (s : string) : string :=
  match s with
  | EmptyString => EmptyString
  | String c r => String (if Ascii.eqb c "'" then dq else c) (js r)
  end.

End text.

(* ================================================================== *)
(** * encoding/json: the scanner *)

Module json.
Import text.

(** [isSpace]: the four bytes the scanner skips between tokens. *)
Definition isSpace (c : ascii) : bool :=
  Ascii.eqb c " " || Ascii.eqb c "009" || Ascii.eqb c "013" || Ascii.eqb c "010".

Fixpoint skip_space (s : string) : string :=
  match s with
  | String c r => if isSpace c then skip_space r else s
  | EmptyString => s
  end.

Fixpoint skip_digits (s : string) : string :=
  match s with
  | String c r => if is_digit c then skip_digits r else s
  | EmptyString => s
  end.

(** One or more digits. *)
Definition scan_digits1 (s : string) : option string :=
  match s with
  | String c r => if is_digit c then Some (skip_digits r) else None
  | EmptyString => None
  end.

(** The exponent part of a number, when there is one. *)
Definition scan_exp (s : string) : option string :=
  match s with
  | String c r =>
      if Ascii.eqb c "e" || Ascii.eqb c "E" then
        match r with
        | String d r' =>
            if Ascii.eqb d "+" || Ascii.eqb d "-" then scan_digits1 r'
            else scan_digits1 r
        | EmptyString => None
        end
      else Some s
  | EmptyString => Some s
  end.

(** The fraction part of a number, when there is one. *)
Definition scan_frac (s : string) : option string :=
  match s with
  | String c r =>
      if Ascii.eqb c "." then
        match scan_digits1 r with
        | Some r' => scan_exp r'
        | None => None
        end
      else scan_exp s
  | EmptyString => Some s
  end.

(** The integer part: a single [0], or a non-zero digit and more digits. *)
Definition scan_int (s : string) : option string :=
  match s with
  | String c r =>
      if Ascii.eqb c "0" then scan_frac r
      else if is_digit c then scan_frac (skip_digits r)
      else None
  | EmptyString => None
  end.

(** A number literal; the result is what follows it. *)
Definition scan_number (s : string) : option string :=
  match s with
  | String c r => if Ascii.eqb c "-" then scan_int r else scan_int s
  | EmptyString => None
  end.

Definition is_escape (c : ascii) : bool :=
  Ascii.eqb c dq || Ascii.eqb c "\" || Ascii.eqb c "/" || Ascii.eqb c "b"
  || Ascii.eqb c "f" || Ascii.eqb c "n" || Ascii.eqb c "r" || Ascii.eqb c "t".

(** A string literal after its opening quote; the result is what
    follows the closing quote.  Control bytes are refused, a backslash
    takes one of the eight escapes or [u] and four hex digits. *)
Fixpoint scan_string (s : string) : option string :=
  match s with
  | EmptyString => None
  | String c r =>
      if Ascii.eqb c dq then Some r
      else if Ascii.eqb c "\" then
        match r with
        | String e r' =>
            if is_escape e then scan_string r'
            else if Ascii.eqb e "u" then
              match r' with
              | String h1 (String h2 (String h3 (String h4 r''))) =>
                  if is_hex h1 && is_hex h2 && is_hex h3 && is_hex h4
                  then scan_string r'' else None
              | _ => None
              end
            else None
        | EmptyString => None
        end
      else if (code c <? 32)%N then None
      else scan_string r
  end.

(** The scanner refuses more than this many open arrays and objects. *)
Definition maxNestingDepth : N := 10000.

(** One JSON value at the head of [s]; the result is what follows it.
    [depth] counts the arrays and objects that are open; the recursion
    is on [fuel]; a value of [n] bytes never needs more than [2 * n + 1]
    ([scan_value_local]). *)
Fixpoint scan_value (fuel : nat) (depth : N) (s : string) : option string :=
  match fuel with
  | O => None
  | S fuel =>
      match s with
      | EmptyString => None
      | String c r =>
          if Ascii.eqb c "{" then
            if (depth <? maxNestingDepth)%N then
              match skip_space r with
              | String c' r' =>
                  if Ascii.eqb c' "}" then Some r'
                  else scan_members fuel (depth + 1)%N (String c' r')
              | EmptyString => None
              end
            else None
          else if Ascii.eqb c "[" then
            if (depth <? maxNestingDepth)%N then
              match skip_space r with
              | String c' r' =>
                  if Ascii.eqb c' "]" then Some r'
                  else scan_elements fuel (depth + 1)%N (String c' r')
              | EmptyString => None
              end
            else None
          else if Ascii.eqb c dq then scan_string r
          else if Ascii.eqb c "t" then strip "rue" r
          else if Ascii.eqb c "f" then strip "alse" r
          else if Ascii.eqb c "n" then strip "ull" r
          else scan_number s
      end
  end
with scan_members (fuel : nat) (depth : N) (s : string) : option string :=
  match fuel with
  | O => None
  | S fuel =>
      match s with
      | EmptyString => None
      | String c r =>
          if Ascii.eqb c dq then
            match scan_string r with
            | Some r1 =>
                match skip_space r1 with
                | String c2 r2 =>
                    if Ascii.eqb c2 ":" then
                      match scan_value fuel depth (skip_space r2) with
                      | Some r3 =>
                          match skip_space r3 with
                          | String c4 r4 =>
                              if Ascii.eqb c4 "," then
                                scan_members fuel depth (skip_space r4)
                              else if Ascii.eqb c4 "}" then Some r4
                              else None
                          | EmptyString => None
                          end
                      | None => None
                      end
                    else None
                | EmptyString => None
                end
            | None => None
            end
          else None
      end
  end
with scan_elements (fuel : nat) (depth : N) (s : string) : option string :=
  match fuel with
  | O => None
  | S fuel =>
      match scan_value fuel depth s with
      | Some r =>
          match skip_space r with
          | String c r' =>
              if Ascii.eqb c "," then scan_elements fuel depth (skip_space r')
              else if Ascii.eqb c "]" then Some r'
              else None
          | EmptyString => None
          end
      | None => None
      end
  end.

(** The value at the head of [s], scanned with enough fuel. *)
Definition scan (s : string) : option string :=
  scan_value (S (2 * String.length s)) 0 s.

(** [checkValid]: the text is one JSON value with optional white space
    around it. *)
Definition checkValid (data : string) : bool :=
  match scan (skip_space data) with
  | Some r => match skip_space r with EmptyString => true | _ => false end
  | None => false
  end.

(** The bytes of the value in [data], without the white space around
    it: what the decoder hands to an [UnmarshalJSON] method and stores
    in a [RawMessage]. *)
Definition token (data : string) : string :=
  let v := skip_space data in
  match scan v with
  | Some r => consumed v r
  | None => EmptyString
  end.

(** The decoder tells the kinds of value apart by the first byte. *)
Inductive kind := Null | Bool | Number | String_ | Array | Object.

Definition kind_of (tok : string) : kind :=
  match tok with
  | String c _ =>
      if Ascii.eqb c "{" then Object
      else if Ascii.eqb c "[" then Array
      else if Ascii.eqb c dq then String_
      else if Ascii.eqb c "n" then Null
      else if Ascii.eqb c "t" || Ascii.eqb c "f" then Bool
      else Number
  | EmptyString => Number
  end.

(** The members of an object, from the opening quote of a key on: each
    key literal with the raw text of its value, in the order of the
    text. *)
Fixpoint members (fuel : nat) (s : string) : list (string * string) :=
  match fuel with
  | O => []
  | S fuel =>
      match s with
      | EmptyString => []
      | String _ r =>
          match scan_string r with
          | Some r1 =>
              match skip_space r1 with
              | String _ r2 =>
                  let v := skip_space r2 in
                  match scan v with
                  | Some r3 =>
                      (consumed s r1, consumed v r3) ::
                      match skip_space r3 with
                      | String c4 r4 =>
                          if Ascii.eqb c4 "," then members fuel (skip_space r4)
                          else []
                      | EmptyString => []
                      end
                  | None => []
                  end
              | EmptyString => []
              end
          | None => []
          end
      end
  end.

Definition object_members (tok : string) : list (string * string) :=
  match tok with
  | String _ r =>
      match skip_space r with
      | String c r' =>
          if Ascii.eqb c "}" then []
          else members (String.length tok) (String c r')
      | EmptyString => []
      end
  | EmptyString => []
  end.

(** [isValidNumber]: the whole text is one number literal. *)
Definition isValidNumber (s : string) : bool :=
  match scan_number s with
  | Some EmptyString => true
  | _ => false
  end.

(** [json.Number]: a number kept as its literal text. *)
Record Number_ := mkNumber { number_text : string }.

(** [json.Unmarshal(data, &v)] at the type of [v]: [unmarshal data v]
    is [None] when the call returns an error, and otherwise the value
    it leaves in [v]. *)
Class Unmarshal (A : Type) := unmarshal : string → A → option A.

End json.

(* ================================================================== *)
(** * Machine integers *)

Module int64.

Definition wrap (z : Z) : Z := (z + 2 ^ 63) mod 2 ^ 64 - 2 ^ 63.

Definition in_range (z : Z) : Prop := - 2 ^ 63 <= z < 2 ^ 63.

Definition add (a b : Z) : Z := wrap (a + b).
Definition sub (a b : Z) : Z := wrap (a - b).
Definition mul (a b : Z) : Z := wrap (a * b).
(** Go's [/] and [%] truncate toward zero. *)
Definition quot (a b : Z) : Z := wrap (Z.quot a b).
Definition rem (a b : Z) : Z := wrap (Z.rem a b).

End int64.

(* ================================================================== *)
(** * time *)

Module time.

(** An instant: the seconds since January 1 of year 1, 00:00:00 UTC,
    and the nanoseconds within that second.  The location of a
    [time.Time] takes no part in [IsZero] and [Before]; the monotonic
    clock reading exists only on a result of [time.Now], which this
    package never calls. *)
Record Time := mkTime { sec : Z; nsec : Z }.

#[global] Instance Time_eq_dec : EqDecision Time.
Proof. solve_decision. Defined.

(** The zero value of the type. *)
Definition zero : Time := mkTime 0 0.

(** Seconds from year 1 to 1970. *)
Definition unixToInternal : Z := (1969 * 365 + 1969 / 4 - 1969 / 100 + 1969 / 400) * 86400.

(** [time.Unix(sec, nsec)]: [nsec] outside of [0, 999999999] is
    carried into the seconds. *)
Definition Unix (sec nsec : Z) : Time :=
  let '(sec, nsec) :=
    if (nsec <? 0) || (1000000000 <=? nsec) then
      let n := int64.quot nsec 1000000000 in
      let sec := int64.add sec n in
      let nsec := int64.sub nsec (int64.mul n 1000000000) in
      if nsec <? 0 then (int64.sub sec 1, int64.add nsec 1000000000)
      else (sec, nsec)
    else (sec, nsec) in
  mkTime (int64.add sec unixToInternal) nsec.

Definition IsZero (t : Time) : bool := (sec t =? 0) && (nsec t =? 0).

Definition Before (t u : Time) : bool :=
  (sec t <? sec u) || ((sec t =? sec u) && (nsec t <? nsec u)).

End time.

(* ================================================================== *)
(** * ecs-logs-go: severity levels *)

Module ecslogs.

(** [type Level int] with its constants, numbered from [NONE = 0] in
    this order. *)
Inductive Level :=
| NONE | EMERGENCY | ALERT | CRITICAL | ERROR | WARN | NOTICE | INFO
| DEBUG | TRACE.

Definition to_int (l : Level) : Z :=
  match l with
  | NONE => 0 | EMERGENCY => 1 | ALERT => 2 | CRITICAL => 3 | ERROR => 4
  | WARN => 5 | NOTICE => 6 | INFO => 7 | DEBUG => 8 | TRACE => 9
  end.

(** The zero value of the type, the one a fresh variable holds. *)
Definition zero : Level := NONE.

End ecslogs.

(* ================================================================== *)
(** * aws-sdk-go: a retrieved record *)

Module cloudwatchlogs.

(** [cloudwatchlogs.FilteredLogEvent]: every field is a pointer, and
    [None] is the nil pointer. *)
Record FilteredLogEvent := {
  EventId : option string;
  IngestionTime : option Z;
  LogStreamName : option string;
  Message : option string;
  Timestamp : option Z;
}.

End cloudwatchlogs.

(* ================================================================== *)
(** * regexp and strings: the fragments the package uses *)

Module regexp.

(** A pattern anchored at both ends ([^] ... [$], and no flag, so [$]
    is the end of the text): a sequence of pieces, each a byte of a
    class repeated a fixed number of times or one literal byte. *)
Inductive piece :=
| Repeat (cls : ascii → bool) (n : nat)
| Literal (c : ascii).

Definition Regexp := list piece.

Fixpoint match_repeat (cls : ascii → bool) (n : nat) (s : string) : option string :=
  match n with
  | O => Some s
  | S n' =>
      match s with
      | String c r => if cls c then match_repeat cls n' r else None
      | EmptyString => None
      end
  end.

Fixpoint MatchString (re : Regexp) (s : string) : bool :=
  match re with
  | [] => match s with EmptyString => true | _ => false end
  | Repeat cls n :: re' =>
      match match_repeat cls n s with
      | Some r => MatchString re' r
      | None => false
      end
  | Literal c :: re' =>
      match s with
      | String c' r => Ascii.eqb c c' && MatchString re' r
      | EmptyString => false
      end
  end.

End regexp.

Module gostrings.

(** [strings.Split(s, sep)] for a separator of one byte: the pieces of
    [s] between the separators; never an empty list. *)
Fixpoint Split (s : string) (sep : ascii) : list string :=
  match s with
  | EmptyString => [EmptyString]
  | String c r =>
      if Ascii.eqb c sep then EmptyString :: Split r sep
      else
        match Split r sep with
        | p :: ps => String c p :: ps
        | [] => [String c EmptyString]
        end
  end.

End gostrings.

(* ================================================================== *)
(** * Panics *)

(** The result of a call that can panic (a nil pointer dereference, an
    index out of range). *)
Inductive outcome (A : Type) :=
| Returns (a : A)
| Panics.
Arguments Returns {A} a.
Arguments Panics {A}.

#[global] Instance outcome_ret : MRet outcome := @Returns.
#[global] Instance outcome_bind : MBind outcome := λ A B f m,
  match m with
  | Returns a => f a
  | Panics => Panics
  end.

(** [*p] *)
Definition deref {A} (p : option A) : outcome A :=
  match p with
  | Some a => Returns a
  | None => Panics
  end.

(** [b[i]] *)
Definition index {A} (b : list A) (i : nat) : outcome A := deref (b !! i).

(* ================================================================== *)
(** * sort: the interface and the insertion sort *)

Module sort.

(** [sort.Interface] *)
Class Interface (T : Type) := {
  Len : T → nat;
  Less : T → nat → nat → outcome bool;
  Swap : T → nat → nat → outcome T;
}.

(** The inner loop of [insertionSort]:
    [for j := i; j > a && data.Less(j, j-1); j-- { data.Swap(j, j-1) }] *)
Fixpoint sink `{Interface T} (data : T) (a j : nat) : outcome T :=
  match j with
  | O => Returns data
  | S j' =>
      if decide (a < j)%nat then
        lt ← Less data j j';
        if lt : bool then data' ← Swap data j j'; sink data' a j'
        else Returns data
      else Returns data
  end.

(** [insertionSort(data, a, b)]: [for i := a + 1; i < b; i++ { ... }].
    [sort.Stable] sorts with it every slice of up to 20 elements. *)
Definition insertionSort `{Interface T} (data : T) (a b : nat) : outcome T :=
  foldl (λ acc i, data' ← acc; sink data' a i) (Returns data)
        (seq (a + 1) (b - (a + 1))).

End sort.

(* ================================================================== *)
(** * package lib *)

Module lib.
Import text json.

(** [TaskUUIDPattern]:
    [^[[:alnum:]]{8}-[[:alnum:]]{4}-[[:alnum:]]{4}-[[:alnum:]]{4}-[[:alnum:]]{12}$] *)
Definition TaskUUIDPattern : regexp.Regexp :=
  [ regexp.Repeat is_alnum 8; regexp.Literal "-";
    regexp.Repeat is_alnum 4; regexp.Literal "-";
    regexp.Repeat is_alnum 4; regexp.Literal "-";
    regexp.Repeat is_alnum 4; regexp.Literal "-";
    regexp.Repeat is_alnum 12 ].

Record SourceInfo := {
  Function : string;
  File : string;
  Line : Z;
}.

(** [Data] is a Go map; the nil map reads as the empty one, and
    nothing in the package tells them apart. *)
Record SlogEvent := {
  Level : ecslogs.Level;
  Time : time.Time;
  Source : SourceInfo;
  Message : string;
  Data : gmap string string;
}.

(** [Slog] is the embedded [SlogEvent]. *)
Record Event := {
  Slog : SlogEvent;
  Stream : string;
  Group : string;
  ID : string;
  IngestTime : time.Time;
  CreationTime : time.Time;
}.

Definition zero_SourceInfo : SourceInfo :=
  {| Function := EmptyString; File := EmptyString; Line := 0 |}.

(** The value of [var ecsLogsEvent SlogEvent]. *)
Definition zero_SlogEvent : SlogEvent :=
  {| Level := ecslogs.zero; Time := time.zero; Source := zero_SourceInfo;
     Message := EmptyString; Data := ∅ |}.

Definition set_Level (v : ecslogs.Level) (s : SlogEvent) : SlogEvent :=
  {| Level := v; Time := Time s; Source := Source s; Message := Message s; Data := Data s |}.
Definition set_Time (v : time.Time) (s : SlogEvent) : SlogEvent :=
  {| Level := Level s; Time := v; Source := Source s; Message := Message s; Data := Data s |}.
Definition set_Source (v : SourceInfo) (s : SlogEvent) : SlogEvent :=
  {| Level := Level s; Time := Time s; Source := v; Message := Message s; Data := Data s |}.
Definition set_Message (v : string) (s : SlogEvent) : SlogEvent :=
  {| Level := Level s; Time := Time s; Source := Source s; Message := v; Data := Data s |}.
Definition set_Data (v : gmap string string) (s : SlogEvent) : SlogEvent :=
  {| Level := Level s; Time := Time s; Source := Source s; Message := Message s; Data := v |}.

(** What the package takes from its libraries without fixing it here:
    the decoding of a string literal (escapes, UTF-8), the RFC 3339
    reader of [time.Time], and [json.Unmarshal] into an
    [ecslogs.Level] and into a [SourceInfo] struct.  Every property
    below holds for all of them. *)
Class Decoders := {
  unquote : string → string;
  parseRFC3339 : string → option time.Time;
  Level_Unmarshal :: Unmarshal ecslogs.Level;
  SourceInfo_Unmarshal :: Unmarshal SourceInfo;
}.

Section Parser.
Context `{Decoders}.

(** Into a [map[string]json.RawMessage]: an object adds its members
    in order, a later duplicate key replacing an earlier one; [null]
    makes the map nil; everything else is a type error. *)
#[export] Instance Unmarshal_RawMap : Unmarshal (gmap string string) := λ data v,
  if checkValid data then
    let tok := token data in
    match kind_of tok with
    | Object =>
        Some (foldl (λ m kv, <[unquote kv.1 := kv.2]> m) v (object_members tok))
    | Null => Some ∅
    | _ => None
    end
  else None.

(** Into a [string]: a string literal is decoded, [null] leaves the
    variable as it is, everything else is a type error. *)
#[export] Instance Unmarshal_string : Unmarshal string := λ data v,
  if checkValid data then
    let tok := token data in
    match kind_of tok with
    | String_ => Some (unquote tok)
    | Null => Some v
    | _ => None
    end
  else None.

(** Into a [json.Number]: a number keeps its literal text, a string
    literal must hold a number, [null] leaves the variable as it
    is. *)
#[export] Instance Unmarshal_Number : Unmarshal Number_ := λ data v,
  if checkValid data then
    let tok := token data in
    match kind_of tok with
    | Number => Some (mkNumber tok)
    | String_ =>
        let t := unquote tok in
        if isValidNumber t then Some (mkNumber t) else None
    | Null => Some v
    | _ => None
    end
  else None.

(** [Time.UnmarshalJSON]: [null] is a no-op, and anything but a
    quoted RFC 3339 text is an error. *)
Definition Time_UnmarshalJSON (t : time.Time) (data : string) : option time.Time :=
  if String.eqb data "null" then Some t
  else
    match data with
    | String c r =>
        if Ascii.eqb c dq && (2 <=? String.length data)%nat
           && String.eqb (substring (String.length r - 1) 1 r) (String dq EmptyString)
        then parseRFC3339 (substring 0 (String.length r - 1) r)
        else None
    | EmptyString => None
    end.

(** Into a [time.Time]: the value of any kind goes to its
    [UnmarshalJSON] method. *)
#[export] Instance Unmarshal_Time : Unmarshal time.Time := λ data v,
  if checkValid data then Time_UnmarshalJSON v (token data) else None.

Definition staticFields : gmap string bool :=
  {[ "level" := true; "time" := true; "source" := true; "msg" := true ]}.

(** The text kept for a field outside of the fixed schema: the body
    of the [range] loop. *)
Definition field_text (value : string) : string :=
  match unmarshal value EmptyString with
  | None =>
      match unmarshal value (mkNumber EmptyString) with
      | None => value
      | Some num => number_text num
      end
  | Some str => str
  end.

(** [func (s *SlogEvent) UnmarshalJSON(data []byte) error].  The
    result is the receiver after a call that returns nil; where Go
    returns an error the receiver is left partly written, and the
    one caller replaces it as a whole. *)
Definition UnmarshalJSON (s : SlogEvent) (data : string) : option SlogEvent :=
  raw ← unmarshal data (∅ : gmap string string);
  s ← match raw !! "level" with
      | Some levelData => v ← unmarshal levelData (Level s); Some (set_Level v s)
      | None => Some s
      end;
  s ← match raw !! "time" with
      | Some timeData => v ← unmarshal timeData (Time s); Some (set_Time v s)
      | None => Some s
      end;
  s ← match raw !! "source" with
      | Some sourceData => v ← unmarshal sourceData (Source s); Some (set_Source v s)
      | None => Some s
      end;
  s ← match raw !! "msg" with
      | Some msgData => v ← unmarshal msgData (Message s); Some (set_Message v s)
      | None => Some s
      end;
  Some (set_Data
          (map_fold (λ key value data,
               if default false (staticFields !! key) then data
               else <[key := field_text value]> data) ∅ raw) s).

(** Into a [SlogEvent]: the text is checked, and then the value of
    any kind goes to [UnmarshalJSON]. *)
#[export] Instance Unmarshal_SlogEvent : Unmarshal SlogEvent := λ data v,
  if checkValid data then UnmarshalJSON v (token data) else None.

(** [ParseAWSTimestamp]: milliseconds since 1970 to a [time.Time]. *)
Definition ParseAWSTimestamp (i : option Z) : time.Time :=
  match i with
  | None => time.Unix 0 0
  | Some i =>
      time.Unix (int64.quot i 1000) (int64.mul (int64.rem i 1000) 1000000)
  end.

(** [SlogEvent{Level: ecslogs.INFO, Message: message}] *)
Definition fallback (message : string) : SlogEvent :=
  {| Level := ecslogs.INFO; Time := time.zero; Source := zero_SourceInfo;
     Message := message; Data := ∅ |}.

(** The first statement of [NewEvent]: the record of a message
    text. *)
Definition parse_message (message : string) : SlogEvent :=
  match unmarshal message zero_SlogEvent with
  | Some ecsLogsEvent => ecsLogsEvent
  | None => fallback message
  end.

(** [NewEvent] *)
Definition NewEvent (cwEvent : cloudwatchlogs.FilteredLogEvent) (group : string)
  : outcome Event :=
  message ← deref (cloudwatchlogs.Message cwEvent);
  let ecsLogsEvent := parse_message message in
  let ecsLogsEvent :=
    if time.IsZero (Time ecsLogsEvent)
    then set_Time (ParseAWSTimestamp (cloudwatchlogs.Timestamp cwEvent)) ecsLogsEvent
    else ecsLogsEvent in
  stream ← deref (cloudwatchlogs.LogStreamName cwEvent);
  id ← deref (cloudwatchlogs.EventId cwEvent);
  Returns {| Slog := ecsLogsEvent;
             Stream := stream;
             Group := group;
             ID := id;
             IngestTime := ParseAWSTimestamp (cloudwatchlogs.IngestionTime cwEvent);
             CreationTime := ParseAWSTimestamp (cloudwatchlogs.Timestamp cwEvent) |}.

End Parser.

(** [TaskShort] *)
Definition TaskShort (e : Event) : outcome string :=
  if regexp.MatchString TaskUUIDPattern (Stream e) then
    let uuidParts := gostrings.Split (Stream e) "-" in
    index uuidParts 0
  else Returns (Stream e).

(** [ByCreationTime] *)
Abbreviation ByCreationTime := (list Event).

#[export] Instance ByCreationTime_Interface : sort.Interface ByCreationTime := {|
  sort.Len b := length b;
  sort.Swap b i j :=
    x ← index b i; y ← index b j; Returns (<[j := x]> (<[i := y]> b));
  sort.Less b i j :=
    x ← index b i; y ← index b j;
    Returns (time.Before (CreationTime x) (CreationTime y));
|}.

End lib.

(* ================================================================== *)
(** * Sample decoders *)

(** One instance of [lib.Decoders], to run the package on sample
    records.  It reads string literals with the one-byte escapes, the
    level names in any case, UTC times of the form
    [2006-01-02T15:04:05Z], and a source object with the keys
    [function], [file] and [line]. *)
Module sample.
Import text json.

Definition unescape (e : ascii) : ascii :=
  if Ascii.eqb e "b" then "008"%char
  else if Ascii.eqb e "f" then "012"%char
  else if Ascii.eqb e "n" then "010"%char
  else if Ascii.eqb e "r" then "013"%char
  else if Ascii.eqb e "t" then "009"%char
  else e.

(** The text of a string literal, from after its opening quote. *)
Fixpoint unquote_body (s : string) : string :=
  match s with
  | EmptyString => EmptyString
  | String c r =>
      if Ascii.eqb c dq then EmptyString
      else if Ascii.eqb c "\" then
        match r with
        | String e r' => String (unescape e) (unquote_body r')
        | EmptyString => EmptyString
        end
      else String c (unquote_body r)
  end.

Definition unquote (tok : string) : string :=
  match tok with
  | String _ r => unquote_body r
  | EmptyString => EmptyString
  end.

Definition upper (c : ascii) : ascii :=
  if in_range "a" "z" c then ascii_of_N (code c - 32) else c.

Fixpoint ToUpper (s : string) : string :=
  match s with
  | EmptyString => EmptyString
  | String c r => String (upper c) (ToUpper r)
  end.

Definition ParseLevel (s : string) : option ecslogs.Level :=
  let u := ToUpper s in
  if String.eqb u "EMERGENCY" then Some ecslogs.EMERGENCY
  else if String.eqb u "ALERT" then Some ecslogs.ALERT
  else if String.eqb u "CRITICAL" then Some ecslogs.CRITICAL
  else if String.eqb u "ERROR" then Some ecslogs.ERROR
  else if String.eqb u "WARN" then Some ecslogs.WARN
  else if String.eqb u "NOTICE" then Some ecslogs.NOTICE
  else if String.eqb u "INFO" then Some ecslogs.INFO
  else if String.eqb u "DEBUG" then Some ecslogs.DEBUG
  else if String.eqb u "TRACE" then Some ecslogs.TRACE
  else None.

Definition Unmarshal_Level : Unmarshal ecslogs.Level := λ data v,
  if checkValid data then
    let tok := token data in
    match kind_of tok with
    | String_ => ParseLevel (unquote tok)
    | Null => Some v
    | _ => None
    end
  else None.

(** The number a run of decimal digits writes. *)
Fixpoint digits (acc : Z) (s : string) : option Z :=
  match s with
  | EmptyString => Some acc
  | String c r =>
      if is_digit c then digits (10 * acc + Z.of_N (code c - 48)) r else None
  end.

Definition leap (y : Z) : bool :=
  (y mod 4 =? 0) && (negb (y mod 100 =? 0) || (y mod 400 =? 0)).

Definition daysIn (m y : Z) : Z :=
  if m =? 2 then (if leap y then 29 else 28)
  else if (m =? 4) || (m =? 6) || (m =? 9) || (m =? 11) then 30 else 31.

(** Days from 1970-01-01 to the given date. *)
Definition days_from_civil (y m d : Z) : Z :=
  let y' := if m <=? 2 then y - 1 else y in
  let era := y' / 400 in
  let yoe := y' - era * 400 in
  let doy := (153 * (if 2 <? m then m - 3 else m + 9) + 2) / 5 + d - 1 in
  let doe := yoe * 365 + yoe / 4 - yoe / 100 + doy in
  era * 146097 + doe - 719468.

Definition between (lo hi x : Z) : bool := (lo <=? x) && (x <=? hi).

Definition parseRFC3339 (s : string) : option time.Time :=
  if (String.length s =? 20)%nat
     && String.eqb (substring 4 1 s) "-" && String.eqb (substring 7 1 s) "-"
     && String.eqb (substring 10 1 s) "T" && String.eqb (substring 13 1 s) ":"
     && String.eqb (substring 16 1 s) ":" && String.eqb (substring 19 1 s) "Z"
  then
    y ← digits 0 (substring 0 4 s);
    m ← digits 0 (substring 5 2 s);
    d ← digits 0 (substring 8 2 s);
    hh ← digits 0 (substring 11 2 s);
    mm ← digits 0 (substring 14 2 s);
    ss ← digits 0 (substring 17 2 s);
    if between 1 12 m && between 1 (daysIn m y) d && between 0 23 hh
       && between 0 59 mm && between 0 59 ss
    then Some (time.mkTime (days_from_civil y m d * 86400 + hh * 3600 + mm * 60 + ss
                            + time.unixToInternal) 0)
    else None
  else None.

Definition raw_fields (tok : string) : gmap string string :=
  foldl (λ m kv, <[unquote kv.1 := kv.2]> m) ∅ (object_members tok).

Definition string_field (raw : gmap string string) (key : string) (v : string)
  : option string :=
  match raw !! key with
  | Some tok =>
      match kind_of tok with
      | String_ => Some (unquote tok)
      | Null => Some v
      | _ => None
      end
  | None => Some v
  end.

Definition int_field (raw : gmap string string) (key : string) (v : Z) : option Z :=
  match raw !! key with
  | Some tok =>
      match kind_of tok with
      | Number =>
          match tok with
          | String c r => if Ascii.eqb c "-" then Z.opp <$> digits 0 r else digits 0 tok
          | EmptyString => None
          end
      | Null => Some v
      | _ => None
      end
  | None => Some v
  end.

Definition Unmarshal_SourceInfo : Unmarshal lib.SourceInfo := λ data v,
  if checkValid data then
    let tok := token data in
    match kind_of tok with
    | Object =>
        let raw := raw_fields tok in
        fn ← string_field raw "function" (lib.Function v);
        fl ← string_field raw "file" (lib.File v);
        ln ← int_field raw "line" (lib.Line v);
        Some {| lib.Function := fn; lib.File := fl; lib.Line := ln |}
    | Null => Some v
    | _ => None
    end
  else None.

#[export] Instance decoders : lib.Decoders := {|
  lib.unquote := unquote;
  lib.parseRFC3339 := parseRFC3339;
  lib.Level_Unmarshal := Unmarshal_Level;
  lib.SourceInfo_Unmarshal := Unmarshal_SourceInfo;
|}.

End sample.

(* ================================================================== *)
(** * The notions of the specification *)

Module spec.
Import text json lib.

(** The first byte of [t], if any, satisfies [P]. *)
Definition head_ok (P : ascii → bool) (t : string) : bool :=
  match t with
  | EmptyString => true
  | String c _ => P c
  end.

Definition no_digit (c : ascii) : bool := negb (is_digit c).
Definition no_space (c : ascii) : bool := negb (isSpace c).
Definition no_number (c : ascii) : bool :=
  negb (is_digit c || Ascii.eqb c "." || Ascii.eqb c "e" || Ascii.eqb c "E").

(** [t] cannot continue a number that ends in front of it. *)
Definition number_end (t : string) : bool := head_ok no_number t.

(** [p] is the text of exactly one JSON value, with nothing around
    it. *)
Definition value_text (p : string) : Prop :=
  scan p = Some EmptyString ∧ skip_space p = p.

(** A scan that succeeds read a non-empty prefix [p], and reads it
    again with any fuel above twice its length, at any smaller depth,
    and in front of the same text or of any text that cannot continue a
    number. *)
Definition local (F : nat → N → string → option string) (n : nat) : Prop :=
  ∀ d s r, F n d s = Some r →
    ∃ p, s = p +:+ r ∧ p ≠ EmptyString
      ∧ ∀ m d' t, (2 * String.length p < m)%nat → (d' ≤ d)%N →
          number_end t = true ∨ t = r →
          F m d' (p +:+ t) = Some t.

Section parser_notions.
Context `{Decoders}.

(** The members of an object text as the map the parser reads them
    into. *)
Definition fields (tok : string) : gmap string string :=
  foldl (λ m kv, <[unquote kv.1 := kv.2]> m) ∅ (object_members tok).

(** The text is valid JSON and its value is an object. *)
Definition is_object (data : string) : Prop :=
  checkValid data = true ∧ kind_of (token data) = Object.

(** The payload built from the decoded members. *)
Definition payload (raw : gmap string string) : gmap string string :=
  map_fold (λ key value data,
      if default false (staticFields !! key) then data
      else <[key := field_text value]> data) ∅ raw.

(** The four keys of the fixed schema. *)
Definition reserved (key : string) : bool :=
  String.eqb key "level" || String.eqb key "time" || String.eqb key "source"
  || String.eqb key "msg".

End parser_notions.

(** The canonical UUID text shape: five groups of 8, 4, 4, 4 and 12
    bytes of the class [cls], with a hyphen between them. *)
Definition uuid_text (cls : ascii → bool) (s : string) : Prop :=
  ∃ g1 g2 g3 g4 g5,
    s = g1 +:+ String "-" (g2 +:+ String "-" (g3 +:+ String "-"
          (g4 +:+ String "-" g5)))
    ∧ String.length g1 = 8%nat ∧ String.length g2 = 4%nat
    ∧ String.length g3 = 4%nat ∧ String.length g4 = 4%nat
    ∧ String.length g5 = 12%nat
    ∧ forallb cls g1 = true ∧ forallb cls g2 = true ∧ forallb cls g3 = true
    ∧ forallb cls g4 = true ∧ forallb cls g5 = true.

(** The first hyphen-delimited segment of a text. *)
Fixpoint first_segment (s : string) : string :=
  match s with
  | EmptyString => EmptyString
  | String c r => if Ascii.eqb c "-" then EmptyString else String c (first_segment r)
  end.

(** The pattern of [lib.TaskUUIDPattern] over any class of bytes. *)
Definition uuid_pattern (cls : ascii → bool) : regexp.Regexp :=
  [ regexp.Repeat cls 8; regexp.Literal "-";
    regexp.Repeat cls 4; regexp.Literal "-";
    regexp.Repeat cls 4; regexp.Literal "-";
    regexp.Repeat cls 4; regexp.Literal "-";
    regexp.Repeat cls 12 ].

(** [t] is strictly before [u]. *)
Definition strictly_before (t u : time.Time) : Prop :=
  time.sec t < time.sec u ∨ (time.sec t = time.sec u ∧ time.nsec t < time.nsec u).

(** [x] was not created after [y]. *)
Definition created_le (x y : lib.Event) : Prop :=
  time.Before (lib.CreationTime y) (lib.CreationTime x) = false.

(** The events of [b] created at [t], in the order of [b]. *)
Definition created_at (t : time.Time) (b : list lib.Event) : list lib.Event :=
  filter (λ e, lib.CreationTime e = t) b.

(** An event with the given identifier, created [s] seconds into
    1970. *)
Definition event_created (id : string) (s : Z) : lib.Event :=
  {| lib.Slog := lib.zero_SlogEvent; lib.Stream := EmptyString;
     lib.Group := EmptyString; lib.ID := id;
     lib.IngestTime := time.zero; lib.CreationTime := time.Unix s 0 |}.

(** The inner loop, on the sorted part kept in reverse: [x] moves
    past the events created strictly after it. *)
Fixpoint sink_rev (x : lib.Event) (l : list lib.Event) : list lib.Event :=
  match l with
  | [] => [x]
  | y :: l' =>
      if time.Before (lib.CreationTime x) (lib.CreationTime y) then y :: sink_rev x l'
      else x :: y :: l'
  end.

(** The outer loop on the same representation. *)
Fixpoint run (l r : list lib.Event) : list lib.Event :=
  match r with
  | [] => reverse l
  | x :: r' => run (sink_rev x l) r'
  end.

(** A retrieved record with the given message text and creation
    timestamp. *)
Definition record_of (message : string) (timestamp : option Z)
  : cloudwatchlogs.FilteredLogEvent :=
  {| cloudwatchlogs.EventId := Some "37"%string;
     cloudwatchlogs.IngestionTime := Some 1700000000500;
     cloudwatchlogs.LogStreamName := Some "worker-1"%string;
     cloudwatchlogs.Message := Some message;
     cloudwatchlogs.Timestamp := timestamp |}.

(** Sample message texts. *)
Definition text_bad_source : string :=
  js "{'level':'ERROR','source':7,'msg':'disk full','attempt':2}".
Definition text_bad_time : string := js "{'time':123,'msg':'hello','k':'v'}".
Definition text_error : string :=
  js "{'level':'ERROR','time':'2023-11-14T22:13:20Z','msg':'m','count':3}".
Definition text_null_field : string := js "{'a':null,'b':[1, 2],'c':'x','d':1.5e3}".
Definition text_no_level : string := js "{'msg':'hello'}".

(** An event with the given stream name. *)
Definition event_of_stream (stream : string) : lib.Event :=
  {| lib.Slog := lib.zero_SlogEvent; lib.Stream := stream;
     lib.Group := EmptyString; lib.ID := EmptyString;
     lib.IngestTime := time.zero; lib.CreationTime := time.zero |}.

End spec.

(* ================================================================== *)
(** * Further notions *)

Module notions.
Import text json lib.

(** The value of [key] in [raw], when there is one, decodes into a
    variable that holds [cur]. *)
Definition decodes {A} `{Unmarshal A} (raw : gmap string string) (key : string)
    (cur : A) : Prop :=
  match raw !! key with
  | Some v => is_Some (unmarshal v cur)
  | None => True
  end.

(** The text between the quotes of a string literal. *)
Definition inner (tok : string) : string :=
  substring 1 (String.length tok - 2) tok.

(** The milliseconds since 1970 of an instant. *)
Definition UnixMilli (t : time.Time) : Z :=
  (time.sec t - time.unixToInternal) * 1000 + time.nsec t / 1000000.

(** [e] with another stream name. *)
Definition with_Stream (stream : string) (e : Event) : Event :=
  {| Slog := Slog e; Stream := stream; Group := Group e; ID := ID e;
     IngestTime := IngestTime e; CreationTime := CreationTime e |}.

(** A record that already holds values. *)
Definition used_record : SlogEvent :=
  {| Level := ecslogs.DEBUG; Time := time.Unix 5 0; Source := zero_SourceInfo;
     Message := "before"; Data := {[ "old" := "1"%string ]} |}.

(** The event of a call that returns. *)
Definition returned (o : outcome Event) : Event :=
  match o with
  | Returns e => e
  | Panics => spec.event_of_stream EmptyString
  end.

(** The milliseconds that [ParseAWSTimestamp] reads from a pointer:
    those of the nil pointer are 0. *)
Definition ms_of (i : option Z) : Z := default 0 i.

(** The one millisecond count whose instant is the zero [time.Time]. *)
Definition zero_time_ms : Z := - time.unixToInternal * 1000.

(** Sample message texts. *)
Definition text_msg_object : string := js "{'level':'INFO','msg':{'text':'x'}}".
Definition text_nulls : string :=
  js "{'level':'warn','msg':null,'time':null,'source':null,'k':'v'}".
Definition text_update : string := js "{'msg':'after','k':'v'}".
Definition newline : string := String "010" EmptyString.

End notions.

(* ================================================================== *)
(** * Properties: texts *)

Import text json lib spec.

Lemma append_cons c s t : String c s +:+ t = String c (s +:+ t).
Proof. reflexivity. Qed.

Lemma append_nil_l s : EmptyString +:+ s = s.
Proof. reflexivity. Qed.

Lemma append_nil_r s : s +:+ EmptyString = s.
Proof. induction s as [|c s IH]; [done|]. rewrite append_cons. congruence. Qed.

Lemma append_assoc s1 s2 s3 : (s1 +:+ s2) +:+ s3 = s1 +:+ (s2 +:+ s3).
Proof. induction s1 as [|c s1 IH]; [done|]. rewrite !append_cons. congruence. Qed.

Lemma length_append s1 s2 :
  String.length (s1 +:+ s2) = (String.length s1 + String.length s2)%nat.
Proof. induction s1 as [|c s1 IH]; [done|]. rewrite append_cons. simpl. congruence. Qed.

Lemma substring_append_l s1 s2 :
  substring 0 (String.length s1) (s1 +:+ s2) = s1.
Proof.
  induction s1 as [|c s1 IH].
  - by destruct s2.
  - rewrite append_cons. simpl. congruence.
Qed.

Lemma consumed_append p r : consumed (p +:+ r) r = p.
Proof.
  unfold consumed. rewrite length_append.
  replace (String.length p + String.length r - String.length r)%nat
    with (String.length p) by lia.
  apply substring_append_l.
Qed.

Lemma forallb_append p s1 s2 :
  forallb p (s1 +:+ s2) = forallb p s1 && forallb p s2.
Proof.
  induction s1 as [|c s1 IH]; [done|]. rewrite append_cons. simpl.
  destruct (p c); simpl; congruence.
Qed.

(* ================================================================== *)
(** * Properties: the scanner reads a value and nothing more *)

Lemma head_ok_replace P p r t :
  head_ok P (p +:+ r) = true → head_ok P t = true → head_ok P (p +:+ t) = true.
Proof. destruct p; [done|]. by rewrite !append_cons. Qed.

Lemma head_ok_weaken (P Q : ascii → bool) t :
  (∀ c, P c = true → Q c = true) → head_ok P t = true → head_ok Q t = true.
Proof. intros HPQ. destruct t; simpl; auto. Qed.

Lemma no_number_no_digit c : no_number c = true → no_digit c = true.
Proof. unfold no_number, no_digit. destruct (is_digit c); done. Qed.

Lemma number_end_no_digit t : number_end t = true → head_ok no_digit t = true.
Proof. apply head_ok_weaken, no_number_no_digit. Qed.

Lemma skip_digits_head s : head_ok no_digit (skip_digits s) = true.
Proof.
  induction s as [|c s IH]; simpl; [done|].
  destruct (is_digit c) eqn:Hc; [done|]. simpl. unfold no_digit. by rewrite Hc.
Qed.

Lemma skip_digits_end t : head_ok no_digit t = true → skip_digits t = t.
Proof.
  destruct t as [|c t]; simpl; [done|]. unfold no_digit.
  by destruct (is_digit c).
Qed.

Lemma skip_digits_local s :
  ∃ p, s = p +:+ skip_digits s
    ∧ ∀ t, head_ok no_digit t = true → skip_digits (p +:+ t) = t.
Proof.
  induction s as [|c s (p & Hs & Hp)]; simpl.
  - exists EmptyString. split; [done|]. intros t Ht. by apply skip_digits_end.
  - destruct (is_digit c) eqn:Hc.
    + exists (String c p). rewrite append_cons. split; [congruence|].
      intros t Ht. rewrite append_cons. simpl. rewrite Hc. by apply Hp.
    + exists EmptyString. split; [done|]. intros t Ht. by apply skip_digits_end.
Qed.

Lemma scan_digits1_head s r : scan_digits1 s = Some r → head_ok no_digit r = true.
Proof.
  destruct s as [|c s]; simpl; [done|]. destruct (is_digit c); [|done].
  intros [= <-]. apply skip_digits_head.
Qed.

Lemma scan_digits1_local s r :
  scan_digits1 s = Some r →
  ∃ p, s = p +:+ r
    ∧ ∀ t, head_ok no_digit t = true → scan_digits1 (p +:+ t) = Some t.
Proof.
  destruct s as [|c s]; simpl; [done|]. destruct (is_digit c) eqn:Hc; [|done].
  intros [= <-]. destruct (skip_digits_local s) as (p & Hs & Hp).
  exists (String c p). rewrite append_cons. split; [congruence|].
  intros t Ht. rewrite append_cons. simpl. rewrite Hc. f_equal. by apply Hp.
Qed.

Lemma scan_digits1_inv s r :
  scan_digits1 s = Some r → ∃ c s', s = String c s' ∧ is_digit c = true.
Proof.
  destruct s as [|c s]; simpl; [done|]. destruct (is_digit c) eqn:Hc; [|done]. eauto.
Qed.

Lemma digit_facts c :
  is_digit c = true →
  Ascii.eqb c "+" = false ∧ Ascii.eqb c "-" = false ∧ Ascii.eqb c "." = false
  ∧ Ascii.eqb c "e" = false ∧ Ascii.eqb c "E" = false.
Proof.
  destruct c as [[] [] [] [] [] [] [] []]; vm_compute; intros; repeat split; congruence.
Qed.

Lemma scan_exp_end t : number_end t = true → scan_exp t = Some t.
Proof.
  destruct t as [|c t]; [done|]. unfold number_end, no_number. simpl.
  destruct (is_digit c), (Ascii.eqb c "."), (Ascii.eqb c "e"), (Ascii.eqb c "E"); done.
Qed.

Lemma scan_exp_local s r :
  scan_exp s = Some r →
  ∃ p, s = p +:+ r ∧ ∀ t, number_end t = true → scan_exp (p +:+ t) = Some t.
Proof.
  destruct s as [|c s].
  - intros [= <-]. exists EmptyString. split; [done|]. apply scan_exp_end.
  - simpl. destruct (Ascii.eqb c "e" || Ascii.eqb c "E") eqn:Hc.
    + destruct s as [|d s]; [done|].
      destruct (Ascii.eqb d "+" || Ascii.eqb d "-") eqn:Hd.
      * intros (p & -> & Hp)%scan_digits1_local.
        exists (String c (String d p)). split; [done|].
        intros t Ht. rewrite !append_cons. simpl. rewrite Hc, Hd.
        by apply Hp, number_end_no_digit.
      * intros Hs. destruct (scan_digits1_local _ _ Hs) as (p & Hsp & Hp).
        exists (String c p). rewrite append_cons. split; [congruence|].
        intros t Ht. rewrite append_cons. simpl. rewrite Hc.
        specialize (Hp t (number_end_no_digit t Ht)).
        destruct (scan_digits1_inv _ _ Hp) as (d' & u & Hu & Hd').
        rewrite Hu in *.
        destruct (digit_facts d' Hd') as (-> & -> & _). simpl. done.
    + intros [= <-]. exists EmptyString. split; [done|]. apply scan_exp_end.
Qed.

Lemma scan_frac_not_dot u :
  head_ok (λ c, negb (Ascii.eqb c ".")) u = true → scan_frac u = scan_exp u.
Proof.
  destruct u as [|c u]; [done|]. simpl. by destruct (Ascii.eqb c ".").
Qed.

Lemma number_end_not_dot t :
  number_end t = true → head_ok (λ c, negb (Ascii.eqb c ".")) t = true.
Proof.
  apply head_ok_weaken. intros c. unfold no_number.
  destruct (is_digit c), (Ascii.eqb c "."); done.
Qed.

Lemma scan_frac_local s r :
  scan_frac s = Some r →
  ∃ p, s = p +:+ r ∧ ∀ t, number_end t = true → scan_frac (p +:+ t) = Some t.
Proof.
  destruct s as [|c s].
  - intros [= <-]. exists EmptyString. split; [done|].
    intros t Ht. rewrite append_nil_l, scan_frac_not_dot by (by apply number_end_not_dot).
    by apply scan_exp_end.
  - unfold scan_frac at 1. destruct (Ascii.eqb c ".") eqn:Hc.
    + destruct (scan_digits1 s) as [r1|] eqn:H1; [|done].
      intros (p2 & -> & Hp2)%scan_exp_local.
      pose proof (scan_digits1_head _ _ H1) as Hhead.
      apply scan_digits1_local in H1 as (p1 & -> & Hp1).
      exists (String c (p1 +:+ p2)). rewrite append_cons, append_assoc. split; [done|].
      intros t Ht. rewrite append_cons, append_assoc. unfold scan_frac. rewrite Hc.
      rewrite Hp1 by (eapply head_ok_replace; [exact Hhead|by apply number_end_no_digit]).
      by apply Hp2.
    + intros Hs. destruct (scan_exp_local _ _ Hs) as (p & Hsp & Hp).
      exists p. split; [done|]. intros t Ht.
      rewrite scan_frac_not_dot; [by apply Hp|].
      eapply head_ok_replace; [|by apply number_end_not_dot].
      rewrite <- Hsp. simpl. by rewrite Hc.
Qed.

Lemma scan_int_local s r :
  scan_int s = Some r →
  ∃ p, s = p +:+ r ∧ ∀ t, number_end t = true → scan_int (p +:+ t) = Some t.
Proof.
  destruct s as [|c s]; [done|]. simpl. destruct (Ascii.eqb c "0") eqn:Hc.
  - intros (p & -> & Hp)%scan_frac_local.
    exists (String c p). split; [done|]. intros t Ht.
    rewrite append_cons. simpl. rewrite Hc. by apply Hp.
  - destruct (is_digit c) eqn:Hd; [|done].
    intros Hs. destruct (scan_frac_local _ _ Hs) as (pf & Hsf & Hpf).
    destruct (skip_digits_local s) as (pd & Hsd & Hpd).
    exists (String c (pd +:+ pf)). rewrite append_cons, append_assoc.
    split; [congruence|].
    intros t Ht. rewrite append_cons, append_assoc. simpl. rewrite Hc, Hd.
    rewrite Hpd; [by apply Hpf|].
    eapply head_ok_replace; [|by apply number_end_no_digit].
    rewrite <- Hsf. apply skip_digits_head.
Qed.

Lemma scan_int_inv s r :
  scan_int s = Some r → ∃ c s', s = String c s' ∧ is_digit c = true.
Proof.
  destruct s as [|c s]; [done|]. simpl. destruct (Ascii.eqb c "0") eqn:Hc.
  - apply Ascii.eqb_eq in Hc as ->. eauto.
  - destruct (is_digit c) eqn:Hd; [eauto|done].
Qed.

Lemma scan_number_local s r :
  scan_number s = Some r →
  ∃ p, s = p +:+ r ∧ ∀ t, number_end t = true → scan_number (p +:+ t) = Some t.
Proof.
  destruct s as [|c s]; [done|]. unfold scan_number at 1.
  destruct (Ascii.eqb c "-") eqn:Hc.
  - intros (p & -> & Hp)%scan_int_local.
    exists (String c p). split; [done|]. intros t Ht.
    rewrite append_cons. unfold scan_number. rewrite Hc. by apply Hp.
  - intros Hs. destruct (scan_int_local _ _ Hs) as (p & Hsp & Hp).
    exists p. split; [done|]. intros t Ht. specialize (Hp t Ht).
    destruct (scan_int_inv _ _ Hp) as (c' & u & Hu & Hd). rewrite Hu in *.
    simpl. destruct (digit_facts c' Hd) as (_ & -> & _). done.
Qed.

Lemma scan_number_inv s r :
  scan_number s = Some r →
  ∃ c s', s = String c s' ∧ (is_digit c = true ∨ c = "-"%char).
Proof.
  destruct s as [|c s]; [done|]. unfold scan_number.
  destruct (Ascii.eqb c "-") eqn:Hc.
  - apply Ascii.eqb_eq in Hc as ->. eauto.
  - intros (c' & u & [= -> ->] & Hd)%scan_int_inv. eauto.
Qed.

Lemma cons_eq_append c s p r :
  String c s = p +:+ r → p ≠ EmptyString → ∃ p', p = String c p' ∧ s = p' +:+ r.
Proof.
  destruct p as [|c' p']; [done|]. rewrite append_cons. intros [= -> ->] _. eauto.
Qed.

Lemma strip_local q s r : strip q s = Some r → s = q +:+ r.
Proof.
  revert s. induction q as [|a q IH]; intros s; simpl.
  - by intros [= ->].
  - destruct s as [|b s]; [done|]. destruct (Ascii.eqb a b) eqn:Hab; [|done].
    apply Ascii.eqb_eq in Hab as ->. intros ->%IH. done.
Qed.

Lemma strip_append q t : strip q (q +:+ t) = Some t.
Proof.
  induction q as [|a q IH]; [done|]. rewrite append_cons. simpl.
  by rewrite Ascii.eqb_refl.
Qed.

Lemma skip_space_head s : head_ok no_space (skip_space s) = true.
Proof.
  induction s as [|c s IH]; simpl; [done|].
  destruct (isSpace c) eqn:Hc; [done|]. simpl. unfold no_space. by rewrite Hc.
Qed.

Lemma skip_space_split s :
  ∃ w, s = w +:+ skip_space s ∧ forallb isSpace w = true.
Proof.
  induction s as [|c s (w & Hs & Hw)]; simpl.
  - by exists EmptyString.
  - destruct (isSpace c) eqn:Hc.
    + exists (String c w). rewrite append_cons. split; [congruence|].
      simpl. by rewrite Hc.
    + by exists EmptyString.
Qed.

Lemma skip_space_ws w c u :
  forallb isSpace w = true → isSpace c = false →
  skip_space (w +:+ String c u) = String c u.
Proof.
  intros Hw Hc. induction w as [|a w IH].
  - rewrite append_nil_l. simpl. by rewrite Hc.
  - rewrite append_cons. simpl in *. apply andb_true_iff in Hw as [-> Hw]. auto.
Qed.

Lemma skip_space_cons_inv s c u : skip_space s = String c u → isSpace c = false.
Proof.
  intros Hs. pose proof (skip_space_head s) as Hh. rewrite Hs in Hh.
  simpl in Hh. unfold no_space in Hh. by destruct (isSpace c).
Qed.

Lemma space_no_number c : isSpace c = true → no_number c = true.
Proof. destruct c as [[] [] [] [] [] [] [] []]; vm_compute; congruence. Qed.

Lemma number_end_ws w c u :
  forallb isSpace w = true → no_number c = true → number_end (w +:+ String c u) = true.
Proof.
  destruct w as [|a w]; [done|]. rewrite append_cons. simpl.
  intros [Ha _]%andb_true_iff _. by apply space_no_number.
Qed.

Lemma scan_string_local s r :
  scan_string s = Some r →
  ∃ p, s = p +:+ r ∧ p ≠ EmptyString ∧ ∀ t, scan_string (p +:+ t) = Some t.
Proof.
  remember (String.length s) as n eqn:Hn. revert s Hn r.
  induction n as [n IH] using lt_wf_ind. intros s Hn r.
  destruct s as [|c s]; [done|]. simpl.
  destruct (Ascii.eqb c dq) eqn:Hq.
  { intros [= <-]. exists (String c EmptyString). repeat split; [done|].
    intros t. rewrite append_cons. simpl. by rewrite Hq. }
  destruct (Ascii.eqb c "\") eqn:Hb.
  - destruct s as [|e s]; [done|]. destruct (is_escape e) eqn:He.
    + intros Hs. simpl in Hn.
      destruct (IH (String.length s) ltac:(lia) s eq_refl r Hs) as (p & -> & _ & Hp).
      exists (String c (String e p)). repeat split; [done|].
      intros t. rewrite !append_cons. simpl. by rewrite Hq, Hb, He.
    + destruct (Ascii.eqb e "u") eqn:Hu; [|done].
      destruct s as [|h1 [|h2 [|h3 [|h4 s]]]]; try done.
      destruct (is_hex h1 && is_hex h2 && is_hex h3 && is_hex h4) eqn:Hh; [|done].
      intros Hs. simpl in Hn.
      destruct (IH (String.length s) ltac:(lia) s eq_refl r Hs) as (p & -> & _ & Hp).
      exists (String c (String e (String h1 (String h2 (String h3 (String h4 p)))))).
      repeat split; [done|].
      intros t. rewrite !append_cons. simpl. by rewrite Hq, Hb, He, Hu, Hh.
  - destruct (code c <? 32)%N eqn:Hctl; [done|].
    intros Hs. simpl in Hn.
    destruct (IH (String.length s) ltac:(lia) s eq_refl r Hs) as (p & -> & _ & Hp).
    exists (String c p). repeat split; [done|].
    intros t. rewrite !append_cons. simpl. by rewrite Hq, Hb, Hctl.
Qed.

Lemma scan_value_eq n d c r :
  scan_value (S n) d (String c r) =
    if Ascii.eqb c "{" then
      if (d <? maxNestingDepth)%N then
        match skip_space r with
        | String c' r' =>
            if Ascii.eqb c' "}" then Some r'
            else scan_members n (d + 1)%N (String c' r')
        | EmptyString => None
        end
      else None
    else if Ascii.eqb c "[" then
      if (d <? maxNestingDepth)%N then
        match skip_space r with
        | String c' r' =>
            if Ascii.eqb c' "]" then Some r'
            else scan_elements n (d + 1)%N (String c' r')
        | EmptyString => None
        end
      else None
    else if Ascii.eqb c dq then scan_string r
    else if Ascii.eqb c "t" then strip "rue" r
    else if Ascii.eqb c "f" then strip "alse" r
    else if Ascii.eqb c "n" then strip "ull" r
    else scan_number (String c r).
Proof. reflexivity. Qed.

Lemma scan_members_eq n d c r :
  scan_members (S n) d (String c r) =
    if Ascii.eqb c dq then
      match scan_string r with
      | Some r1 =>
          match skip_space r1 with
          | String c2 r2 =>
              if Ascii.eqb c2 ":" then
                match scan_value n d (skip_space r2) with
                | Some r3 =>
                    match skip_space r3 with
                    | String c4 r4 =>
                        if Ascii.eqb c4 "," then scan_members n d (skip_space r4)
                        else if Ascii.eqb c4 "}" then Some r4
                        else None
                    | EmptyString => None
                    end
                | None => None
                end
              else None
          | EmptyString => None
          end
      | None => None
      end
    else None.
Proof. reflexivity. Qed.

Lemma scan_elements_eq n d s :
  scan_elements (S n) d s =
    match scan_value n d s with
    | Some r =>
        match skip_space r with
        | String c r' =>
            if Ascii.eqb c "," then scan_elements n d (skip_space r')
            else if Ascii.eqb c "]" then Some r'
            else None
        | EmptyString => None
        end
    | None => None
    end.
Proof. reflexivity. Qed.

Lemma scan_value_nil n d : scan_value n d EmptyString = None.
Proof. by destruct n. Qed.

Lemma scan_members_nil n d : scan_members n d EmptyString = None.
Proof. by destruct n. Qed.

Ltac norm_app :=
  repeat first [rewrite append_cons | rewrite append_assoc | rewrite append_nil_l].

Ltac norm_len H :=
  repeat first [rewrite length_append in H | progress cbn [String.length] in H].

Lemma depth_le d d' :
  (d' ≤ d)%N → (d <? maxNestingDepth)%N = true → (d' <? maxNestingDepth)%N = true.
Proof. rewrite !N.ltb_lt. lia. Qed.

Lemma delimiter_no_number c :
  Ascii.eqb c "," = true ∨ Ascii.eqb c "}" = true ∨ Ascii.eqb c "]" = true →
  no_number c = true.
Proof. intros [H|[H|H]]; apply Ascii.eqb_eq in H as ->; reflexivity. Qed.

Lemma scan_local n :
  local scan_value n ∧ local scan_members n ∧ local scan_elements n.
Proof.
  induction n as [|n (IHv & IHm & IHe)]; [by repeat split; intros d s r H|].
  assert (Hvalue : local scan_value (S n)).
  { intros d s r H. destruct s as [|c s0]; [done|]. rewrite scan_value_eq in H.
    destruct (Ascii.eqb c "{") eqn:Hc1.
    { destruct (d <? maxNestingDepth)%N eqn:Hd; [|done].
      destruct (skip_space s0) as [|c' r'] eqn:Hsk; [done|].
      pose proof (skip_space_cons_inv _ _ _ Hsk) as Hns.
      destruct (skip_space_split s0) as (w & Hw & Hws). rewrite Hsk in Hw.
      destruct (Ascii.eqb c' "}") eqn:Hc'.
      - injection H as <-. exists (String c (w +:+ String c' EmptyString)).
        split; [by norm_app; rewrite <- Hw|]. split; [done|].
        intros m d' t Hm Hd' Ht. destruct m as [|m]; [lia|]. norm_app.
        rewrite scan_value_eq, Hc1, (depth_le d d') by done.
        by rewrite skip_space_ws, Hc' by done.
      - apply IHm in H as (pm & Hpm & Hne & Hloc).
        destruct (cons_eq_append _ _ _ _ Hpm Hne) as (pm' & -> & ->).
        exists (String c (w +:+ String c' pm')).
        split; [by norm_app; rewrite <- Hw|]. split; [done|].
        intros m d' t Hm Hd' Ht. destruct m as [|m]; [lia|]. norm_app.
        rewrite scan_value_eq, Hc1, (depth_le d d') by done.
        rewrite skip_space_ws, Hc' by done.
        rewrite <- append_cons. apply Hloc; [|lia|done].
        norm_len Hm. cbn [String.length]. lia. }
    destruct (Ascii.eqb c "[") eqn:Hc2.
    { destruct (d <? maxNestingDepth)%N eqn:Hd; [|done].
      destruct (skip_space s0) as [|c' r'] eqn:Hsk; [done|].
      pose proof (skip_space_cons_inv _ _ _ Hsk) as Hns.
      destruct (skip_space_split s0) as (w & Hw & Hws). rewrite Hsk in Hw.
      destruct (Ascii.eqb c' "]") eqn:Hc'.
      - injection H as <-. exists (String c (w +:+ String c' EmptyString)).
        split; [by norm_app; rewrite <- Hw|]. split; [done|].
        intros m d' t Hm Hd' Ht. destruct m as [|m]; [lia|]. norm_app.
        rewrite scan_value_eq, Hc1, Hc2, (depth_le d d') by done.
        by rewrite skip_space_ws, Hc' by done.
      - apply IHe in H as (pm & Hpm & Hne & Hloc).
        destruct (cons_eq_append _ _ _ _ Hpm Hne) as (pm' & -> & ->).
        exists (String c (w +:+ String c' pm')).
        split; [by norm_app; rewrite <- Hw|]. split; [done|].
        intros m d' t Hm Hd' Ht. destruct m as [|m]; [lia|]. norm_app.
        rewrite scan_value_eq, Hc1, Hc2, (depth_le d d') by done.
        rewrite skip_space_ws, Hc' by done.
        rewrite <- append_cons. apply Hloc; [|lia|done].
        norm_len Hm. cbn [String.length]. lia. }
    destruct (Ascii.eqb c dq) eqn:Hc3.
    { apply scan_string_local in H as (p & -> & _ & Hp).
      exists (String c p). repeat split; [done|].
      intros m d' t Hm Hd' Ht. destruct m as [|m]; [lia|]. norm_app.
      by rewrite scan_value_eq, Hc1, Hc2, Hc3. }
    destruct (Ascii.eqb c "t") eqn:Hc4.
    { apply strip_local in H as ->. exists (String c "rue"). repeat split; [done|].
      intros m d' t Hm Hd' Ht. destruct m as [|m]; [lia|]. rewrite append_cons.
      by rewrite scan_value_eq, Hc1, Hc2, Hc3, Hc4, strip_append. }
    destruct (Ascii.eqb c "f") eqn:Hc5.
    { apply strip_local in H as ->. exists (String c "alse"). repeat split; [done|].
      intros m d' t Hm Hd' Ht. destruct m as [|m]; [lia|]. rewrite append_cons.
      by rewrite scan_value_eq, Hc1, Hc2, Hc3, Hc4, Hc5, strip_append. }
    destruct (Ascii.eqb c "n") eqn:Hc6.
    { apply strip_local in H as ->. exists (String c "ull"). repeat split; [done|].
      intros m d' t Hm Hd' Ht. destruct m as [|m]; [lia|]. rewrite append_cons.
      by rewrite scan_value_eq, Hc1, Hc2, Hc3, Hc4, Hc5, Hc6, strip_append. }
    pose proof H as Hsame.
    apply scan_number_local in H as (p & Hp & Hloc).
    assert (Hne : p ≠ EmptyString) by (intros ->; by rewrite append_nil_l in Hp; subst r;
      specialize (Hloc EmptyString eq_refl)).
    destruct (cons_eq_append _ _ _ _ Hp Hne) as (p' & -> & ->).
    exists (String c p'). repeat split; [done|].
    intros m d' t Hm Hd' Ht. destruct m as [|m]; [lia|]. rewrite append_cons.
    rewrite scan_value_eq, Hc1, Hc2, Hc3, Hc4, Hc5, Hc6.
    destruct Ht as [Ht| ->]; [|done].
    rewrite <- append_cons. by apply Hloc. }
  split; [exact Hvalue|]. split.
  - intros d s r H. destruct s as [|c s0]; [done|]. rewrite scan_members_eq in H.
    destruct (Ascii.eqb c dq) eqn:Hc; [|done].
    destruct (scan_string s0) as [r1|] eqn:H1; [|done].
    apply scan_string_local in H1 as (p1 & -> & _ & Hp1).
    destruct (skip_space r1) as [|c2 r2] eqn:Hsk1; [done|].
    pose proof (skip_space_cons_inv _ _ _ Hsk1) as Hns1.
    destruct (skip_space_split r1) as (w1 & -> & Hws1). rewrite Hsk1.
    destruct (Ascii.eqb c2 ":") eqn:Hc2; [|done].
    destruct (scan_value n d (skip_space r2)) as [r3|] eqn:Hv; [|done].
    apply IHv in Hv as (pv & Hpv & Hnev & Hlocv).
    destruct (skip_space r2) as [|cv rv] eqn:Hsk2;
      [by destruct pv|].
    pose proof (skip_space_cons_inv _ _ _ Hsk2) as Hns2.
    destruct (skip_space_split r2) as (w2 & -> & Hws2). rewrite Hsk2.
    destruct (cons_eq_append _ _ _ _ Hpv Hnev) as (pv' & -> & ->).
    destruct (skip_space r3) as [|c4 r4] eqn:Hsk3; [done|].
    pose proof (skip_space_cons_inv _ _ _ Hsk3) as Hns3.
    destruct (skip_space_split r3) as (w3 & -> & Hws3). rewrite Hsk3.
    destruct (Ascii.eqb c4 ",") eqn:Hc4.
    + apply IHm in H as (pm & Hpm & Hnem & Hlocm).
      destruct (skip_space r4) as [|c5 r5] eqn:Hsk4; [by destruct pm|].
      pose proof (skip_space_cons_inv _ _ _ Hsk4) as Hns4.
      destruct (skip_space_split r4) as (w4 & -> & Hws4). rewrite Hsk4.
      destruct (cons_eq_append _ _ _ _ Hpm Hnem) as (pm' & -> & ->).
      exists (String c (p1 +:+ w1 +:+ String c2 (w2 +:+ String cv pv' +:+ w3
                +:+ String c4 (w4 +:+ String c5 pm')))).
      split; [by norm_app|]. split; [done|].
      intros m d' t Hm Hd' Ht. destruct m as [|m]; [lia|]. norm_app.
      norm_len Hm.
      rewrite scan_members_eq, Hc, Hp1, skip_space_ws, Hc2, skip_space_ws by done.
      rewrite <- (append_cons cv), Hlocv; cycle 1.
      { cbn [String.length]. lia. } { done. }
      { left. apply number_end_ws; [done|]. apply delimiter_no_number. auto. }
      rewrite skip_space_ws, Hc4, skip_space_ws by done.
      rewrite <- (append_cons c5). apply Hlocm; [|done|done].
      cbn [String.length]. lia.
    + destruct (Ascii.eqb c4 "}") eqn:Hc4'; [|done]. injection H as <-.
      exists (String c (p1 +:+ w1 +:+ String c2 (w2 +:+ String cv pv' +:+ w3
                +:+ String c4 EmptyString))).
      split; [by norm_app|]. split; [done|].
      intros m d' t Hm Hd' Ht. destruct m as [|m]; [lia|]. norm_app.
      norm_len Hm.
      rewrite scan_members_eq, Hc, Hp1, skip_space_ws, Hc2, skip_space_ws by done.
      rewrite <- (append_cons cv), Hlocv; cycle 1.
      { cbn [String.length]. lia. } { done. }
      { left. apply number_end_ws; [done|]. apply delimiter_no_number. auto. }
      by rewrite skip_space_ws, Hc4, Hc4' by done.
  - intros d s r H. rewrite scan_elements_eq in H.
    destruct (scan_value n d s) as [r3|] eqn:Hv; [|done].
    apply IHv in Hv as (pv & -> & Hnev & Hlocv).
    destruct (skip_space r3) as [|c4 r4] eqn:Hsk3; [done|].
    pose proof (skip_space_cons_inv _ _ _ Hsk3) as Hns3.
    destruct (skip_space_split r3) as (w3 & -> & Hws3). rewrite Hsk3.
    destruct (Ascii.eqb c4 ",") eqn:Hc4.
    + apply IHe in H as (pm & Hpm & Hnem & Hlocm).
      destruct (skip_space r4) as [|c5 r5] eqn:Hsk4; [by destruct pm|].
      pose proof (skip_space_cons_inv _ _ _ Hsk4) as Hns4.
      destruct (skip_space_split r4) as (w4 & -> & Hws4). rewrite Hsk4.
      destruct (cons_eq_append _ _ _ _ Hpm Hnem) as (pm' & -> & ->).
      exists (pv +:+ w3 +:+ String c4 (w4 +:+ String c5 pm')).
      split; [by norm_app|]. split; [by destruct pv|].
      intros m d' t Hm Hd' Ht. destruct m as [|m]; [lia|]. norm_app.
      norm_len Hm.
      rewrite scan_elements_eq, Hlocv; cycle 1.
      { lia. } { done. }
      { left. apply number_end_ws; [done|]. apply delimiter_no_number. auto. }
      rewrite skip_space_ws, Hc4, skip_space_ws by done.
      rewrite <- (append_cons c5). apply Hlocm; [|done|done].
      cbn [String.length]. lia.
    + destruct (Ascii.eqb c4 "]") eqn:Hc4'; [|done]. injection H as <-.
      exists (pv +:+ w3 +:+ String c4 EmptyString).
      split; [by norm_app|]. split; [by destruct pv|].
      intros m d' t Hm Hd' Ht. destruct m as [|m]; [lia|]. norm_app.
      norm_len Hm.
      rewrite scan_elements_eq, Hlocv; cycle 1.
      { lia. } { done. }
      { left. apply number_end_ws; [done|]. apply delimiter_no_number. auto. }
      by rewrite skip_space_ws, Hc4, Hc4' by done.
Qed.

(** The fuel of [scan] is enough: a value that some fuel reads is read
    by [scan], so that [scan s = None] means that no value starts
    [s]. *)
Lemma scan_fuel n s r : scan_value n 0 s = Some r → scan s = Some r.
Proof.
  intros H. destruct (proj1 (scan_local _) _ _ _ H) as (p & -> & Hne & Hloc).
  unfold scan. apply Hloc; [|done|by right]. rewrite length_append. lia.
Qed.

Lemma scan_spec s r :
  scan s = Some r →
  ∃ p, s = p +:+ r ∧ p ≠ EmptyString
    ∧ ∀ t, number_end t = true → scan (p +:+ t) = Some t.
Proof.
  unfold scan. intros H.
  destruct (proj1 (scan_local _) _ _ _ H) as (p & -> & Hne & Hloc).
  exists p. repeat split; [done|]. intros t Ht.
  apply Hloc; [|done|by left]. rewrite length_append. lia.
Qed.

Lemma scan_shorter s r : scan s = Some r → (String.length r < String.length s)%nat.
Proof.
  intros (p & -> & Hne & _)%scan_spec. rewrite length_append.
  destruct p; [done|]. simpl. lia.
Qed.

Lemma skip_space_id p : head_ok no_space p = true → skip_space p = p.
Proof.
  destruct p as [|c p]; [done|]. simpl. unfold no_space. by destruct (isSpace c).
Qed.

Lemma skip_space_idemp s : skip_space (skip_space s) = skip_space s.
Proof. apply skip_space_id, skip_space_head. Qed.

Lemma skip_space_length s : (String.length (skip_space s) ≤ String.length s)%nat.
Proof.
  destruct (skip_space_split s) as (w & Hs & _). rewrite Hs at 2.
  rewrite length_append. lia.
Qed.

(** The token of a valid text is the text of one value. *)
Lemma token_value_text data : checkValid data = true → value_text (token data).
Proof.
  unfold checkValid, token.
  destruct (scan (skip_space data)) as [r|] eqn:Hs; [|done]. intros _.
  destruct (scan_spec _ _ Hs) as (p & Hp & Hne & Hloc).
  rewrite Hp, consumed_append. split.
  - rewrite <- (append_nil_r p) at 1. by apply Hloc.
  - apply skip_space_id. pose proof (skip_space_head data) as Hh.
    rewrite Hp in Hh. destruct p; [done|]. by rewrite append_cons in Hh.
Qed.

(** On the text of one value, the check succeeds and the token is the
    whole text. *)
Lemma value_text_valid p : value_text p → checkValid p = true ∧ token p = p.
Proof.
  intros [Hs Hp]. unfold checkValid, token. rewrite Hp, Hs. split; [done|].
  rewrite <- (append_nil_r p) at 1. apply consumed_append.
Qed.

Lemma value_text_cons p : value_text p → ∃ c p', p = String c p'.
Proof.
  intros [Hs _]. destruct p as [|c p']; [|eauto]. by vm_compute in Hs.
Qed.

Lemma token_idemp data :
  checkValid data = true →
  checkValid (token data) = true ∧ token (token data) = token data.
Proof. intros H. by apply value_text_valid, token_value_text. Qed.

Lemma members_eq n c r :
  members (S n) (String c r) =
    match scan_string r with
    | Some r1 =>
        match skip_space r1 with
        | String _ r2 =>
            let v := skip_space r2 in
            match scan v with
            | Some r3 =>
                (consumed (String c r) r1, consumed v r3) ::
                match skip_space r3 with
                | String c4 r4 =>
                    if Ascii.eqb c4 "," then members n (skip_space r4) else []
                | EmptyString => []
                end
            | None => []
            end
        | EmptyString => []
        end
    | None => []
    end.
Proof. reflexivity. Qed.

(** The fuel of [members] is enough above the length of the text. *)
Lemma members_fuel n : ∀ m s,
  (String.length s < n)%nat → (String.length s < m)%nat → members n s = members m s.
Proof.
  induction n as [|n IH]; intros m s Hn Hm; [lia|]. destruct m as [|m]; [lia|].
  destruct s as [|c s]; [done|]. rewrite !members_eq.
  destruct (scan_string s) as [r1|] eqn:H1; [|done].
  apply scan_string_local in H1 as (p1 & -> & Hne1 & _).
  destruct (skip_space r1) as [|c2 r2] eqn:Hsk1; [done|].
  pose proof (skip_space_length r1) as Hl1. rewrite Hsk1 in Hl1.
  cbv zeta. destruct (scan (skip_space r2)) as [r3|] eqn:Hv; [|done].
  f_equal. pose proof (scan_shorter _ _ Hv) as Hl3.
  pose proof (skip_space_length r2) as Hl2.
  destruct (skip_space r3) as [|c4 r4] eqn:Hsk3; [done|].
  pose proof (skip_space_length r3) as Hl4. rewrite Hsk3 in Hl4.
  destruct (Ascii.eqb c4 ","); [|done].
  pose proof (skip_space_length r4) as Hl5.
  cbn [String.length] in *. rewrite length_append in *.
  apply IH; lia.
Qed.

(** Every member of a scanned object carries the text of one value. *)
Lemma members_value_text n : ∀ d s r fuel,
  scan_members n d s = Some r →
  Forall (λ kv, value_text kv.2) (members fuel s).
Proof.
  induction n as [|n IH]; intros d s r fuel H; [done|].
  destruct fuel as [|fuel]; [constructor|].
  destruct s as [|c s0]; [done|]. rewrite scan_members_eq in H. rewrite members_eq.
  destruct (Ascii.eqb c dq) eqn:Hc; [|done].
  destruct (scan_string s0) as [r1|] eqn:H1; [|done].
  destruct (skip_space r1) as [|c2 r2] eqn:Hsk1; [done|].
  destruct (Ascii.eqb c2 ":") eqn:Hc2; [|done].
  destruct (scan_value n d (skip_space r2)) as [r3|] eqn:Hv; [|done].
  destruct (skip_space r3) as [|c4 r4] eqn:Hsk3; [done|].
  destruct (proj1 (scan_local n) _ _ _ Hv) as (pv & Hpv & Hnev & Hlocv).
  assert (Hscan : scan (skip_space r2) = Some r3).
  { unfold scan. rewrite Hpv. apply Hlocv; [|lia|by right]. rewrite length_append. lia. }
  cbv zeta. rewrite Hscan, Hsk3. constructor.
  - cbn [snd]. rewrite Hpv, consumed_append. split.
    + unfold scan. rewrite <- (append_nil_r pv) at 2. apply Hlocv; [lia|lia|by left].
    + apply skip_space_id. pose proof (skip_space_head r2) as Hh.
      rewrite Hpv in Hh. destruct pv; [done|]. by rewrite append_cons in Hh.
  - destruct (Ascii.eqb c4 ","); [|constructor]. by eapply IH.
Qed.

Lemma object_members_value_text tok :
  value_text tok → kind_of tok = Object →
  Forall (λ kv, value_text kv.2) (object_members tok).
Proof.
  intros [Hs _] Hk. destruct tok as [|c s0]; [done|].
  unfold kind_of in Hk. destruct (Ascii.eqb c "{") eqn:Hc; cycle 1.
  { destruct (Ascii.eqb c "["), (Ascii.eqb c dq), (Ascii.eqb c "n"),
      (Ascii.eqb c "t" || Ascii.eqb c "f"); done. }
  unfold scan in Hs. rewrite scan_value_eq, Hc in Hs.
  unfold object_members.
  destruct (0 <? maxNestingDepth)%N; [|done].
  destruct (skip_space s0) as [|c' r'] eqn:Hsk; [done|].
  destruct (Ascii.eqb c' "}"); [constructor|]. by eapply members_value_text.
Qed.

(* ================================================================== *)
(** * Properties: the record parser *)

Section Parser_facts.
Context `{Decoders}.

Lemma unmarshal_RawMap_value_text tok (v : gmap string string) :
  value_text tok →
  unmarshal tok v =
    match kind_of tok with
    | Object => Some (foldl (λ m kv, <[unquote kv.1 := kv.2]> m) v (object_members tok))
    | Null => Some ∅
    | _ => None
    end.
Proof.
  intros [Hv Ht]%value_text_valid.
  unfold unmarshal, Unmarshal_RawMap. by rewrite Hv, Ht.
Qed.

Lemma unmarshal_string_value_text tok (v : string) :
  value_text tok →
  unmarshal tok v =
    match kind_of tok with
    | String_ => Some (unquote tok)
    | Null => Some v
    | _ => None
    end.
Proof.
  intros [Hv Ht]%value_text_valid.
  unfold unmarshal, Unmarshal_string. by rewrite Hv, Ht.
Qed.

Lemma unmarshal_Number_value_text tok (v : Number_) :
  value_text tok →
  unmarshal tok v =
    match kind_of tok with
    | Number => Some (mkNumber tok)
    | String_ =>
        let t := unquote tok in
        if isValidNumber t then Some (mkNumber t) else None
    | Null => Some v
    | _ => None
    end.
Proof.
  intros [Hv Ht]%value_text_valid.
  unfold unmarshal, Unmarshal_Number. by rewrite Hv, Ht.
Qed.

Lemma unmarshal_Time_value_text tok (v : time.Time) :
  value_text tok → unmarshal tok v = Time_UnmarshalJSON v tok.
Proof.
  intros [Hv Ht]%value_text_valid.
  unfold unmarshal, Unmarshal_Time. by rewrite Hv, Ht.
Qed.

(** The text kept for a payload field, by the kind of its value. *)
Lemma field_text_kind value :
  value_text value →
  field_text value =
    match kind_of value with
    | String_ => unquote value
    | Null => EmptyString
    | _ => value
    end.
Proof.
  intros Hv. unfold field_text.
  rewrite unmarshal_string_value_text, unmarshal_Number_value_text by done.
  by destruct (kind_of value).
Qed.

Lemma foldl_insert_Forall (P : string → Prop) (l : list (string * string)) :
  ∀ m : gmap string string,
  Forall (λ kv, P kv.2) l → map_Forall (λ _ v, P v) m →
  map_Forall (λ _ v, P v) (foldl (λ m kv, <[unquote kv.1 := kv.2]> m) m l).
Proof.
  induction l as [|kv l IH]; intros m Hl Hm; simpl; [done|].
  apply Forall_cons in Hl as [Hkv Hl]. apply IH; [done|].
  by apply map_Forall_insert_2.
Qed.

(** The raw values of the members of an object are value texts. *)
Lemma fields_value_text tok key value :
  value_text tok → kind_of tok = Object →
  fields tok !! key = Some value → value_text value.
Proof.
  intros Hv Hk Hl.
  apply (foldl_insert_Forall value_text (object_members tok) ∅
           (object_members_value_text tok Hv Hk) (map_Forall_empty _) key value Hl).
Qed.

Lemma static_reserved key :
  default false (staticFields !! key) = reserved key.
Proof.
  unfold staticFields, reserved.
  destruct (String.eqb_spec key "level") as [->|H1]; [done|].
  rewrite lookup_insert_ne by done.
  destruct (String.eqb_spec key "time") as [->|H2]; [done|].
  rewrite lookup_insert_ne by done.
  destruct (String.eqb_spec key "source") as [->|H3]; [done|].
  rewrite lookup_insert_ne by done.
  destruct (String.eqb_spec key "msg") as [->|H4]; [done|].
  by rewrite lookup_singleton_ne.
Qed.

(** The payload holds exactly the members outside of the fixed
    schema, each with its text. *)
Lemma payload_lookup raw key :
  payload raw !! key = if reserved key then None else field_text <$> raw !! key.
Proof.
  unfold payload.
  apply (map_fold_weak_ind (λ r m, r !! key
           = if reserved key then None else field_text <$> m !! key)).
  - rewrite !lookup_empty. by destruct (reserved key).
  - intros k v m r Hk IH. rewrite static_reserved.
    destruct (decide (k = key)) as [->|Hne].
    + destruct (reserved key) eqn:Hr; [done|].
      by rewrite !lookup_insert_eq.
    + rewrite (lookup_insert_ne m) by done.
      destruct (reserved k); [done|]. by rewrite lookup_insert_ne.
Qed.

(** [UnmarshalJSON] once the members are read: the four fixed fields
    in order, each decoded when its key is present, and the payload. *)
Lemma UnmarshalJSON_fields s data raw :
  unmarshal data (∅ : gmap string string) = Some raw →
  UnmarshalJSON s data =
    (lv ← match raw !! "level" with
          | Some v => unmarshal v (Level s) | None => Some (Level s) end;
     tm ← match raw !! "time" with
          | Some v => unmarshal v (Time s) | None => Some (Time s) end;
     src ← match raw !! "source" with
           | Some v => unmarshal v (Source s) | None => Some (Source s) end;
     msg ← match raw !! "msg" with
           | Some v => unmarshal v (Message s) | None => Some (Message s) end;
     Some {| Level := lv; Time := tm; Source := src; Message := msg;
             Data := payload raw |}).
Proof.
  intros Hraw. unfold UnmarshalJSON. rewrite Hraw. cbn [mbind option_bind].
  destruct (raw !! "level") as [v1|]; [destruct (unmarshal v1 (Level s))|];
    cbn [mbind option_bind]; try done;
  (destruct (raw !! "time") as [v2|]; [destruct (unmarshal v2 (Time _))|];
    cbn [mbind option_bind set_Level Level Time Source Message]; try done;
   (destruct (raw !! "source") as [v3|]; [destruct (unmarshal v3 (Source _))|];
     cbn [mbind option_bind set_Time Level Time Source Message]; try done;
    (destruct (raw !! "msg") as [v4|]; [destruct (unmarshal v4 (Message _))|];
      cbn [mbind option_bind set_Source set_Message Level Time Source Message];
      try done))).
Qed.
End Parser_facts.

Section parse_message_facts.
Context `{Decoders}.

Lemma unmarshal_SlogEvent data v :
  unmarshal data v = if checkValid data then UnmarshalJSON v (token data) else None.
Proof. reflexivity. Qed.

(** A text that is not valid JSON gives the fallback record. *)
Lemma parse_message_invalid data :
  checkValid data = false → parse_message data = fallback data.
Proof. intros Hv. unfold parse_message. by rewrite unmarshal_SlogEvent, Hv. Qed.

(** Valid JSON that is an array, a string, a number or a boolean gives
    the fallback record. *)
Lemma parse_message_not_object data :
  checkValid data = true →
  kind_of (token data) ≠ Object → kind_of (token data) ≠ Null →
  parse_message data = fallback data.
Proof.
  intros Hv Ho Hn. unfold parse_message. rewrite unmarshal_SlogEvent, Hv.
  unfold UnmarshalJSON.
  rewrite unmarshal_RawMap_value_text by (by apply token_value_text).
  by destruct (kind_of (token data)).
Qed.

(** The JSON value [null] is no object, and yet it is read as a record
    without any field. *)
Lemma parse_message_null_kind data :
  checkValid data = true → kind_of (token data) = Null →
  parse_message data = zero_SlogEvent.
Proof.
  intros Hv Hn. unfold parse_message. rewrite unmarshal_SlogEvent, Hv.
  rewrite (UnmarshalJSON_fields _ _ ∅); [done|].
  rewrite unmarshal_RawMap_value_text by (by apply token_value_text).
  by rewrite Hn.
Qed.

Lemma unmarshal_object data :
  is_object data →
  unmarshal (token data) (∅ : gmap string string) = Some (fields (token data)).
Proof.
  intros [Hv Hk].
  rewrite unmarshal_RawMap_value_text by (by apply token_value_text).
  by rewrite Hk.
Qed.

(** A present key of the fixed schema whose value does not decode
    makes the whole record the fallback record. *)
Lemma decode_failure_fallback data :
  is_object data →
  (∃ v, fields (token data) !! "level" = Some v ∧ unmarshal v ecslogs.zero = None)
  ∨ (∃ v, fields (token data) !! "time" = Some v ∧ unmarshal v time.zero = None)
  ∨ (∃ v, fields (token data) !! "source" = Some v
        ∧ unmarshal v zero_SourceInfo = None)
  ∨ (∃ v, fields (token data) !! "msg" = Some v ∧ unmarshal v EmptyString = None) →
  parse_message data = fallback data.
Proof.
  intros Hobj Hfail. unfold parse_message.
  rewrite unmarshal_SlogEvent, (proj1 Hobj).
  rewrite (UnmarshalJSON_fields _ _ _ (unmarshal_object data Hobj)).
  cbn [zero_SlogEvent Level Time Source Message].
  destruct Hfail as [(v & -> & Hf)|[(v & -> & Hf)|[(v & -> & Hf)|(v & -> & Hf)]]];
    rewrite Hf.
  - done.
  - by destruct (match fields (token data) !! "level" with
                 | Some v0 => unmarshal v0 ecslogs.zero | None => Some ecslogs.zero end).
  - destruct (match fields (token data) !! "level" with
              | Some v0 => unmarshal v0 ecslogs.zero | None => Some ecslogs.zero end);
      [|done]. cbn [mbind option_bind].
    by destruct (match fields (token data) !! "time" with
                 | Some v0 => unmarshal v0 time.zero | None => Some time.zero end).
  - destruct (match fields (token data) !! "level" with
              | Some v0 => unmarshal v0 ecslogs.zero | None => Some ecslogs.zero end);
      [|done]. cbn [mbind option_bind].
    destruct (match fields (token data) !! "time" with
              | Some v0 => unmarshal v0 time.zero | None => Some time.zero end);
      [|done]. cbn [mbind option_bind].
    by destruct (match fields (token data) !! "source" with
                 | Some v0 => unmarshal v0 zero_SourceInfo
                 | None => Some zero_SourceInfo end).
Qed.

(** The record of an object whose fixed fields all decode. *)
Lemma parse_message_object data lv tm src msg :
  is_object data →
  match fields (token data) !! "level" with
  | Some v => unmarshal v ecslogs.zero | None => Some ecslogs.zero end = Some lv →
  match fields (token data) !! "time" with
  | Some v => unmarshal v time.zero | None => Some time.zero end = Some tm →
  match fields (token data) !! "source" with
  | Some v => unmarshal v zero_SourceInfo | None => Some zero_SourceInfo end = Some src →
  match fields (token data) !! "msg" with
  | Some v => unmarshal v EmptyString | None => Some EmptyString end = Some msg →
  unmarshal data zero_SlogEvent
  = Some {| Level := lv; Time := tm; Source := src; Message := msg;
            Data := payload (fields (token data)) |}.
Proof.
  intros Hobj Hl Ht Hs Hm.
  rewrite unmarshal_SlogEvent, (proj1 Hobj).
  rewrite (UnmarshalJSON_fields _ _ _ (unmarshal_object data Hobj)).
  cbn [zero_SlogEvent Level Time Source Message].
  by rewrite Hl, Ht, Hs, Hm.
Qed.

(** What a successful parse of an object leaves in the record. *)
Lemma unmarshal_object_inv data s :
  is_object data → unmarshal data zero_SlogEvent = Some s →
  match fields (token data) !! "level" with
  | Some v => unmarshal v ecslogs.zero | None => Some ecslogs.zero end = Some (Level s)
  ∧ match fields (token data) !! "time" with
    | Some v => unmarshal v time.zero | None => Some time.zero end = Some (Time s)
  ∧ match fields (token data) !! "source" with
    | Some v => unmarshal v zero_SourceInfo | None => Some zero_SourceInfo end
    = Some (Source s)
  ∧ match fields (token data) !! "msg" with
    | Some v => unmarshal v EmptyString | None => Some EmptyString end
    = Some (Message s)
  ∧ Data s = payload (fields (token data)).
Proof.
  intros Hobj. rewrite unmarshal_SlogEvent, (proj1 Hobj).
  rewrite (UnmarshalJSON_fields _ _ _ (unmarshal_object data Hobj)).
  cbn [zero_SlogEvent Level Time Source Message].
  destruct (match fields (token data) !! "level" with
            | Some v0 => unmarshal v0 ecslogs.zero | None => Some ecslogs.zero end);
    [|done]. cbn [mbind option_bind].
  destruct (match fields (token data) !! "time" with
            | Some v0 => unmarshal v0 time.zero | None => Some time.zero end);
    [|done]. cbn [mbind option_bind].
  destruct (match fields (token data) !! "source" with
            | Some v0 => unmarshal v0 zero_SourceInfo
            | None => Some zero_SourceInfo end);
    [|done]. cbn [mbind option_bind].
  destruct (match fields (token data) !! "msg" with
            | Some v0 => unmarshal v0 EmptyString | None => Some EmptyString end);
    [|done]. cbn [mbind option_bind].
  by intros [= <-].
Qed.

(** The payload of a parsed object: exactly its members outside of the
    fixed schema; a string is decoded, [null] becomes the empty text,
    and every other value keeps its raw text. *)
Lemma payload_characterisation data s key :
  is_object data → unmarshal data zero_SlogEvent = Some s →
  Data s !! key =
    if reserved key then None
    else (λ v, match kind_of v with
               | String_ => unquote v
               | Null => EmptyString
               | _ => v
               end) <$> fields (token data) !! key.
Proof.
  intros Hobj Hs.
  destruct (unmarshal_object_inv _ _ Hobj Hs) as (_ & _ & _ & _ & ->).
  rewrite payload_lookup. destruct (reserved key); [done|].
  destruct (fields (token data) !! key) as [v|] eqn:Hv; [|done]. simpl. f_equal.
  apply field_text_kind.
  destruct Hobj as [Hvalid Hk].
  by eapply fields_value_text; [apply token_value_text| |].
Qed.

End parse_message_facts.

(* ================================================================== *)
(** * Properties: sample runs *)

Example checkValid_samples :
  checkValid (js "{'a': [1, -2.5e-3, true, null, {'b': 'x\n\u00e9'}], 'c' : {} }") = true
  ∧ checkValid " null " = true
  ∧ checkValid "connection reset by peer" = false
  ∧ checkValid (js "{'a':1,}") = false
  ∧ checkValid (js "{'a':1} x") = false
  ∧ checkValid (js "{'a':01}") = false
  ∧ checkValid (js "'a\qb'") = false
  ∧ checkValid EmptyString = false.
Proof. repeat split; reflexivity. Qed.

Example object_members_sample :
  object_members (js "{'a' : 1, 'b':[1, 2] , 'a':{'c': null}}")
  = [(js "'a'", "1"); (js "'b'", "[1, 2]"); (js "'a'", js "{'c': null}")]%string.
Proof. reflexivity. Qed.

(** A later duplicate key replaces an earlier one. *)
Example fields_sample :
  fields (H := sample.decoders) (js "{'a' : 1, 'b':[1, 2] , 'a':{'c': null}}")
  = {[ "a" := js "{'c': null}"; "b" := "[1, 2]" ]}%string.
Proof. vm_compute. reflexivity. Qed.

Example parse_message_source_sample :
  parse_message (H := sample.decoders)
    (js "{'level':'warn','msg':'slow','source':{'function':'main.f','file':'a.go','line':12}}")
  = {| Level := ecslogs.WARN; Time := time.zero;
       Source := {| Function := "main.f"; File := "a.go"; Line := 12 |};
       Message := "slow"; Data := ∅ |}.
Proof. vm_compute. reflexivity. Qed.

Example parse_message_plain_sample :
  parse_message (H := sample.decoders) "connection reset by peer"
  = {| Level := ecslogs.INFO; Time := time.zero; Source := zero_SourceInfo;
       Message := "connection reset by peer"; Data := ∅ |}.
Proof. vm_compute. reflexivity. Qed.

(** The time of the message wins over the creation time of the
    metadata. *)
Example NewEvent_sample :
  NewEvent (H := sample.decoders) (record_of text_error (Some 1700000123456)) "api"
  = Returns
      {| Slog := {| Level := ecslogs.ERROR; Time := time.Unix 1700000000 0;
                    Source := zero_SourceInfo; Message := "m";
                    Data := {[ "count" := "3"%string ]} |};
         Stream := "worker-1"; Group := "api"; ID := "37";
         IngestTime := time.Unix 1700000000 500000000;
         CreationTime := time.Unix 1700000123 456000000 |}.
Proof. vm_compute. reflexivity. Qed.

(** The level of four records: a plain text, an object with a level
    that is no level name, an object without a level, and the text
    [null]. *)
Example level_samples :
  Level (parse_message (H := sample.decoders) "connection reset by peer") = ecslogs.INFO
  ∧ Level (parse_message (H := sample.decoders) (js "{'level':'loud','msg':'x'}"))
    = ecslogs.INFO
  ∧ Level (parse_message (H := sample.decoders) text_no_level) = ecslogs.NONE
  ∧ Level (parse_message (H := sample.decoders) "null") = ecslogs.NONE.
Proof. repeat split; reflexivity. Qed.

(* ================================================================== *)
(** * Properties: the claims about the record parser *)

(** C2 (the code departs from the claim): the text [null] is valid
    JSON and no object, and yet the parser does not give the fallback
    record for it: the record has no level, an empty message and not
    the text; this holds for every choice of decoders. *)
Theorem null_message_is_not_fallback `{Decoders} :
  checkValid "null" = true
  ∧ kind_of (token "null") = Null
  ∧ parse_message "null" = zero_SlogEvent
  ∧ Level (parse_message "null") = ecslogs.NONE
  ∧ Message (parse_message "null") = EmptyString
  ∧ parse_message "null" ≠ fallback "null".
Proof.
  assert (Hp : parse_message "null" = zero_SlogEvent)
    by (by apply parse_message_null_kind).
  rewrite Hp. repeat split; done.
Qed.

(** C3: an object in which a present key of the fixed schema has a
    value that does not decode is parsed to the fallback record of the
    same text: the level is INFO, the message is the text, and there is
    no timestamp, no source and no payload. *)
Theorem reserved_decode_failure_degrades `{Decoders} data :
  is_object data →
  (∃ v, fields (token data) !! "level" = Some v ∧ unmarshal v ecslogs.zero = None)
  ∨ (∃ v, fields (token data) !! "time" = Some v ∧ unmarshal v time.zero = None)
  ∨ (∃ v, fields (token data) !! "source" = Some v
        ∧ unmarshal v zero_SourceInfo = None)
  ∨ (∃ v, fields (token data) !! "msg" = Some v ∧ unmarshal v EmptyString = None) →
  parse_message data = fallback data
  ∧ Level (parse_message data) = ecslogs.INFO
  ∧ Message (parse_message data) = data
  ∧ Time (parse_message data) = time.zero
  ∧ Source (parse_message data) = zero_SourceInfo
  ∧ Data (parse_message data) = ∅.
Proof.
  intros Hobj Hfail. rewrite (decode_failure_fallback data Hobj Hfail).
  repeat split; done.
Qed.

Lemma reserved_decode_failure_degrades_witness :
  parse_message (H := sample.decoders) text_bad_source = fallback text_bad_source
  ∧ Level (parse_message (H := sample.decoders) text_bad_source) = ecslogs.INFO
  ∧ Message (parse_message (H := sample.decoders) text_bad_source) = text_bad_source
  ∧ Time (parse_message (H := sample.decoders) text_bad_source) = time.zero
  ∧ Source (parse_message (H := sample.decoders) text_bad_source) = zero_SourceInfo
  ∧ Data (parse_message (H := sample.decoders) text_bad_source) = ∅.
Proof.
  apply (reserved_decode_failure_degrades (H := sample.decoders) text_bad_source).
  - split; reflexivity.
  - right. right. left. exists "7"%string. split; reflexivity.
Defined.

(** C4, as the claim states it, fails: in the object below the time
    does not decode, and neither the message nor the payload of the
    object is in the record. *)
Lemma best_effort_counterexample :
  ¬ (∀ (D : Decoders) data v m,
       is_object data →
       (∃ l, fields (token data) !! "level" = Some l ∧ unmarshal l ecslogs.zero = None)
       ∨ (∃ t, fields (token data) !! "time" = Some t ∧ unmarshal t time.zero = None) →
       fields (token data) !! "msg" = Some v → unmarshal v EmptyString = Some m →
       Message (parse_message data) = m
       ∧ ∀ key value, reserved key = false → fields (token data) !! key = Some value →
           is_Some (Data (parse_message data) !! key)).
Proof.
  intros Hclaim.
  destruct (Hclaim sample.decoders text_bad_time (js "'hello'") "hello"%string)
    as [Hmsg _].
  - split; reflexivity.
  - right. exists "123"%string. split; reflexivity.
  - reflexivity.
  - reflexivity.
  - vm_compute in Hmsg. discriminate Hmsg.
Qed.

(** C4 (amended): a level or a time that does not decode prevents the
    extraction of every other field: the record is the fallback record,
    whose message is the whole text and which has no source and no
    payload. *)
Theorem malformed_level_or_time_degrades `{Decoders} data :
  is_object data →
  (∃ l, fields (token data) !! "level" = Some l ∧ unmarshal l ecslogs.zero = None)
  ∨ (∃ t, fields (token data) !! "time" = Some t ∧ unmarshal t time.zero = None) →
  parse_message data = fallback data
  ∧ Message (parse_message data) = data
  ∧ Source (parse_message data) = zero_SourceInfo
  ∧ Data (parse_message data) = ∅.
Proof.
  intros Hobj Hfail.
  rewrite (decode_failure_fallback data Hobj); [repeat split; done|].
  destruct Hfail as [Hl|Ht]; auto.
Qed.

Lemma malformed_level_or_time_degrades_witness :
  parse_message (H := sample.decoders) text_bad_time = fallback text_bad_time
  ∧ Message (parse_message (H := sample.decoders) text_bad_time) = text_bad_time
  ∧ Source (parse_message (H := sample.decoders) text_bad_time) = zero_SourceInfo
  ∧ Data (parse_message (H := sample.decoders) text_bad_time) = ∅.
Proof.
  apply (malformed_level_or_time_degrades (H := sample.decoders) text_bad_time).
  - split; reflexivity.
  - right. exists "123"%string. split; reflexivity.
Defined.

(** C5: an object whose level decodes to ERROR, whose time decodes to
    [T], whose message decodes to [m], whose source (when there is one)
    decodes, and which has the extra member [count] with the number 3,
    is parsed to a record of level ERROR, timestamp [T] and message
    [m], whose payload maps [count] to the text [3]. *)
Theorem structured_record_parsed `{Decoders} data lv tv mv T m :
  is_object data →
  fields (token data) !! "level" = Some lv →
  unmarshal lv ecslogs.zero = Some ecslogs.ERROR →
  fields (token data) !! "time" = Some tv →
  unmarshal tv time.zero = Some T →
  fields (token data) !! "msg" = Some mv →
  unmarshal mv EmptyString = Some m →
  fields (token data) !! "count" = Some "3"%string →
  (∀ sv, fields (token data) !! "source" = Some sv →
         is_Some (unmarshal sv zero_SourceInfo)) →
  ∃ s, unmarshal data zero_SlogEvent = Some s
    ∧ parse_message data = s
    ∧ Level s = ecslogs.ERROR ∧ Time s = T ∧ Message s = m
    ∧ Data s !! "count" = Some "3"%string.
Proof.
  intros Hobj Hl Hlv Ht Htv Hm Hmv Hc Hsrc.
  assert (∃ src, match fields (token data) !! "source" with
                 | Some v => unmarshal v zero_SourceInfo
                 | None => Some zero_SourceInfo end = Some src) as [src Hs].
  { destruct (fields (token data) !! "source") as [sv|] eqn:Hsv; [|by eexists].
    destruct (Hsrc sv eq_refl) as [src Hsrc']. by exists src. }
  pose proof (parse_message_object data ecslogs.ERROR T src m Hobj) as Hp.
  rewrite Hl, Ht, Hm in Hp. specialize (Hp Hlv Htv Hs Hmv).
  eexists. split; [exact Hp|]. unfold parse_message. rewrite Hp.
  repeat split. cbn [Data]. rewrite payload_lookup, Hc. reflexivity.
Qed.

Lemma structured_record_parsed_witness :
  ∃ s, unmarshal (Unmarshal := Unmarshal_SlogEvent (H := sample.decoders))
         text_error
         zero_SlogEvent = Some s
    ∧ parse_message (H := sample.decoders)
        text_error = s
    ∧ Level s = ecslogs.ERROR
    ∧ Time s = time.Unix 1700000000 0
    ∧ Message s = "m"%string
    ∧ Data s !! "count" = Some "3"%string.
Proof.
  apply (structured_record_parsed (H := sample.decoders) text_error
           (js "'ERROR'") (js "'2023-11-14T22:13:20Z'") (js "'m'")
           (time.Unix 1700000000 0) "m").
  - split; reflexivity.
  - reflexivity.
  - reflexivity.
  - reflexivity.
  - reflexivity.
  - reflexivity.
  - reflexivity.
  - reflexivity.
  - intros sv Hsv. vm_compute in Hsv. discriminate Hsv.
Defined.

(** C6 (the code departs from the claim): the member [a] of the object
    below has the value [null], which is neither a string nor a number,
    and the payload keeps for it the empty text instead of the raw text
    [null]. *)
Theorem null_payload_field_is_emptied :
  is_object text_null_field
  ∧ fields (H := sample.decoders) (token text_null_field) !! "a" = Some "null"%string
  ∧ kind_of "null" = Null
  ∧ Data (parse_message (H := sample.decoders) text_null_field)
    = {[ "a" := EmptyString; "b" := "[1, 2]"; "c" := "x"; "d" := "1.5e3" ]}%string.
Proof.
  split; [split; reflexivity|]. split; [reflexivity|].
  split; [reflexivity|]. vm_compute. reflexivity.
Qed.

(** C8, as the claim states it, fails: the object below has no level,
    it is parsed without error, and the level of its record is not
    INFO. *)
Lemma absent_level_counterexample :
  ¬ (∀ (D : Decoders) data,
       ¬ is_object data
       ∨ fields (token data) !! "level" = None
       ∨ (∃ v, fields (token data) !! "level" = Some v
             ∧ unmarshal v ecslogs.zero = None) →
       Level (parse_message data) = ecslogs.INFO).
Proof.
  intros Hclaim.
  specialize (Hclaim sample.decoders text_no_level).
  assert (Hl : Level (parse_message (H := sample.decoders) text_no_level)
               = ecslogs.NONE) by reflexivity.
  rewrite Hl in Hclaim. discriminate Hclaim. right. left. reflexivity.
Qed.

(** C8 (amended): the level of the record is INFO when the text is not
    valid JSON, when it is valid JSON other than an object or [null],
    and when it is an object whose level does not decode; the record of
    an object without a level that is parsed without error has the
    zero level NONE. *)
Theorem level_default `{Decoders} :
  (∀ data, checkValid data = false → Level (parse_message data) = ecslogs.INFO)
  ∧ (∀ data, checkValid data = true →
       kind_of (token data) ≠ Object → kind_of (token data) ≠ Null →
       Level (parse_message data) = ecslogs.INFO)
  ∧ (∀ data v, is_object data →
       fields (token data) !! "level" = Some v → unmarshal v ecslogs.zero = None →
       Level (parse_message data) = ecslogs.INFO)
  ∧ (∀ data s, is_object data →
       fields (token data) !! "level" = None →
       unmarshal data zero_SlogEvent = Some s →
       Level (parse_message data) = ecslogs.NONE).
Proof.
  split; [|split; [|split]].
  - intros data Hv. by rewrite parse_message_invalid.
  - intros data Hv Ho Hn. by rewrite parse_message_not_object.
  - intros data v Hobj Hl Hf. rewrite (decode_failure_fallback data Hobj); [done|].
    left. eauto.
  - intros data s Hobj Hl Hs.
    destruct (unmarshal_object_inv data s Hobj Hs) as (Hlv & _).
    rewrite Hl in Hlv. unfold parse_message. rewrite Hs. by injection Hlv as <-.
Qed.

(* ================================================================== *)
(** * Properties: timestamps *)

Lemma wrap_in_range z : int64.in_range z → int64.wrap z = z.
Proof.
  unfold int64.in_range, int64.wrap. intros Hz.
  rewrite Z.mod_small; lia.
Qed.

Lemma quot_rem_1000 ms :
  let q := Z.quot ms 1000 in
  let r := Z.rem ms 1000 in
  ms = 1000 * q + r ∧ -1000 < r < 1000 ∧ (0 <= ms → 0 <= r) ∧ (ms <= 0 → r <= 0).
Proof.
  intros q r. subst q r.
  pose proof (Z.quot_rem' ms 1000) as Hqr.
  pose proof (Z.rem_bound_abs ms 1000 ltac:(lia)) as Habs.
  pose proof (Z.rem_nonneg ms 1000 ltac:(lia)) as Hnn.
  pose proof (Z.rem_nonpos ms 1000 ltac:(lia)) as Hnp.
  lia.
Qed.

Lemma quot_small_abs a b : -b < a < b → Z.quot a b = 0.
Proof.
  intros Hab. destruct (Z_le_gt_dec 0 a) as [Hpos|Hneg].
  - apply Z.quot_small. lia.
  - rewrite <- (Z.opp_involutive a), Z.quot_opp_l by lia.
    rewrite Z.quot_small by lia. reflexivity.
Qed.

(** Without wrap-around, [ParseAWSTimestamp] is [time.Unix] of the
    truncated quotient and remainder. *)
Lemma ParseAWSTimestamp_Unix ms :
  int64.in_range ms →
  ParseAWSTimestamp (Some ms) = time.Unix (Z.quot ms 1000) (Z.rem ms 1000 * 1000000).
Proof.
  intros Hms. unfold ParseAWSTimestamp, int64.quot, int64.rem, int64.mul.
  destruct (quot_rem_1000 ms) as (Heq & Hr & Hpos & Hneg).
  unfold int64.in_range in Hms.
  rewrite (wrap_in_range (Z.quot ms 1000)) by (unfold int64.in_range; lia).
  rewrite (wrap_in_range (Z.rem ms 1000)) by (unfold int64.in_range; lia).
  rewrite wrap_in_range by (unfold int64.in_range; lia).
  reflexivity.
Qed.

(** [time.Unix] carries a remainder of either sign into the seconds:
    the result is the instant of the floored quotient and remainder. *)
Lemma ParseAWSTimestamp_floor ms :
  int64.in_range ms →
  ParseAWSTimestamp (Some ms)
  = time.mkTime (ms / 1000 + time.unixToInternal) (ms mod 1000 * 1000000).
Proof.
  intros Hms. rewrite ParseAWSTimestamp_Unix by done.
  destruct (quot_rem_1000 ms) as (Heq & Hr & Hpos & Hneg).
  set (q := Z.quot ms 1000) in *. set (r := Z.rem ms 1000) in *.
  unfold int64.in_range in Hms.
  assert (Hu : time.unixToInternal = 62135596800) by reflexivity.
  unfold time.Unix.
  destruct (Z.ltb_spec (r * 1000000) 0) as [Hlt|Hge]; simpl orb; cbv iota.
  - unfold int64.quot, int64.add, int64.sub, int64.mul.
    rewrite (quot_small_abs (r * 1000000) 1000000000) by lia.
    rewrite (wrap_in_range 0) by (unfold int64.in_range; lia).
    rewrite Z.add_0_r, Z.mul_0_l, (wrap_in_range 0) by (unfold int64.in_range; lia).
    rewrite Z.sub_0_r.
    rewrite (wrap_in_range q) by (unfold int64.in_range; lia).
    rewrite (wrap_in_range (r * 1000000)) by (unfold int64.in_range; lia).
    destruct (Z.ltb_spec (r * 1000000) 0); [|lia].
    rewrite (wrap_in_range (q - 1)) by (unfold int64.in_range; lia).
    rewrite (wrap_in_range (r * 1000000 + 1000000000)) by (unfold int64.in_range; lia).
    rewrite wrap_in_range by (unfold int64.in_range; lia).
    assert (Hdiv : ms / 1000 = q - 1)
      by (symmetry; apply (Z.div_unique ms 1000 (q - 1) (r + 1000)); lia).
    assert (Hmod : ms mod 1000 = r + 1000)
      by (symmetry; apply (Z.mod_unique ms 1000 (q - 1) (r + 1000)); lia).
    rewrite Hdiv, Hmod. f_equal. lia.
  - destruct (Z.leb_spec 1000000000 (r * 1000000)); [lia|]. cbv iota.
    unfold int64.add.
    rewrite wrap_in_range by (unfold int64.in_range; lia).
    assert (Hdiv : ms / 1000 = q)
      by (symmetry; apply (Z.div_unique ms 1000 q r); lia).
    assert (Hmod : ms mod 1000 = r)
      by (symmetry; apply (Z.mod_unique ms 1000 q r); lia).
    rewrite Hdiv, Hmod. reflexivity.
Qed.

Lemma ParseAWSTimestamp_nil : ParseAWSTimestamp None = time.mkTime time.unixToInternal 0.
Proof. reflexivity. Qed.

(** A converted timestamp is never the zero [time.Time] unless it is the
    first instant of year 1. *)
Lemma ParseAWSTimestamp_nil_not_zero : time.IsZero (ParseAWSTimestamp None) = false.
Proof. reflexivity. Qed.

(** The order of two converted timestamps is the order of the
    milliseconds. *)
Lemma Before_ParseAWSTimestamp a b :
  int64.in_range a → int64.in_range b →
  time.Before (ParseAWSTimestamp (Some a)) (ParseAWSTimestamp (Some b)) = (a <? b).
Proof.
  intros Ha Hb. rewrite !ParseAWSTimestamp_floor by done.
  unfold time.Before; simpl.
  pose proof (Z.div_mod a 1000 ltac:(lia)).
  pose proof (Z.div_mod b 1000 ltac:(lia)).
  pose proof (Z.mod_pos_bound a 1000 ltac:(lia)).
  pose proof (Z.mod_pos_bound b 1000 ltac:(lia)).
  destruct (Z.ltb_spec a b);
    destruct (Z.ltb_spec (a / 1000 + time.unixToInternal) (b / 1000 + time.unixToInternal));
    destruct (Z.eqb_spec (a / 1000 + time.unixToInternal) (b / 1000 + time.unixToInternal));
    destruct (Z.ltb_spec (a mod 1000 * 1000000) (b mod 1000 * 1000000));
    simpl; try reflexivity; lia.
Qed.

(* ================================================================== *)
(** * Properties: event construction *)

Section NewEvent_facts.
Context `{Decoders}.

(** [NewEvent] returns exactly when the three string pointers of the
    record are not nil; the two timestamps may be nil. *)
Lemma NewEvent_returns_iff cwEvent group :
  (∃ e, NewEvent cwEvent group = Returns e)
  ↔ is_Some (cloudwatchlogs.Message cwEvent)
    ∧ is_Some (cloudwatchlogs.LogStreamName cwEvent)
    ∧ is_Some (cloudwatchlogs.EventId cwEvent).
Proof.
  unfold NewEvent. destruct cwEvent as [id it st msg ts]; simpl.
  destruct msg as [msg|], st as [st|], id as [id|]; simpl; split;
    try (intros [e He]; discriminate He);
    try (intros (Hm & Hs & Hi); first [by destruct Hm | by destruct Hs | by destruct Hi]).
  - intros _. repeat split; eauto.
  - intros _. eauto.
Qed.

Lemma NewEvent_nil_Message cwEvent group :
  cloudwatchlogs.Message cwEvent = None → NewEvent cwEvent group = Panics.
Proof. unfold NewEvent. intros ->. reflexivity. Qed.

Lemma NewEvent_nil_LogStreamName cwEvent group :
  cloudwatchlogs.LogStreamName cwEvent = None → NewEvent cwEvent group = Panics.
Proof.
  unfold NewEvent. intros ->. destruct (cloudwatchlogs.Message cwEvent); reflexivity.
Qed.

Lemma NewEvent_nil_EventId cwEvent group :
  cloudwatchlogs.EventId cwEvent = None → NewEvent cwEvent group = Panics.
Proof.
  unfold NewEvent. intros ->.
  destruct (cloudwatchlogs.Message cwEvent), (cloudwatchlogs.LogStreamName cwEvent);
    reflexivity.
Qed.

(** The fields of the event that [NewEvent] returns. *)
Lemma NewEvent_fields cwEvent group message stream id :
  cloudwatchlogs.Message cwEvent = Some message →
  cloudwatchlogs.LogStreamName cwEvent = Some stream →
  cloudwatchlogs.EventId cwEvent = Some id →
  ∃ e, NewEvent cwEvent group = Returns e
    ∧ Stream e = stream ∧ Group e = group ∧ ID e = id
    ∧ IngestTime e = ParseAWSTimestamp (cloudwatchlogs.IngestionTime cwEvent)
    ∧ CreationTime e = ParseAWSTimestamp (cloudwatchlogs.Timestamp cwEvent)
    ∧ Slog e =
        (if time.IsZero (Time (parse_message message))
         then set_Time (ParseAWSTimestamp (cloudwatchlogs.Timestamp cwEvent))
                (parse_message message)
         else parse_message message).
Proof.
  intros Hm Hs Hi. unfold NewEvent. rewrite Hm, Hs, Hi. simpl.
  eexists. split; [reflexivity|]. simpl. repeat split; reflexivity.
Qed.

(** Nil timestamps are no obstacle: they come out as the first instant
    of 1970. *)
Lemma NewEvent_nil_timestamps cwEvent group message stream id :
  cloudwatchlogs.Message cwEvent = Some message →
  cloudwatchlogs.LogStreamName cwEvent = Some stream →
  cloudwatchlogs.EventId cwEvent = Some id →
  cloudwatchlogs.IngestionTime cwEvent = None →
  cloudwatchlogs.Timestamp cwEvent = None →
  ∃ e, NewEvent cwEvent group = Returns e
    ∧ IngestTime e = time.Unix 0 0 ∧ CreationTime e = time.Unix 0 0.
Proof.
  intros Hm Hs Hi Hit Hts.
  destruct (NewEvent_fields cwEvent group _ _ _ Hm Hs Hi) as (e & He & _ & _ & _ & Hin & Hcr & _).
  exists e. rewrite Hin, Hcr, Hit, Hts. done.
Qed.

End NewEvent_facts.

(** C1 (the code departs from the claim): a retrieved record whose
    message pointer is nil, all other fields being present, makes
    [NewEvent] panic on the dereference instead of returning an event
    with an empty message; this holds for every choice of decoders. *)
Theorem NewEvent_nil_message_panics `{Decoders} :
  NewEvent {| cloudwatchlogs.EventId := Some "37"%string;
              cloudwatchlogs.IngestionTime := Some 1700000000500;
              cloudwatchlogs.LogStreamName := Some "worker-1"%string;
              cloudwatchlogs.Message := None;
              cloudwatchlogs.Timestamp := Some 1700000000000 |} "group"
  = Panics.
Proof. reflexivity. Qed.

(** C7: when the record parsed from the message has a zero timestamp,
    the event's timestamp is the creation timestamp of the retrieval
    metadata converted from milliseconds (seconds [ms / 1000],
    nanoseconds [(ms mod 1000) * 10^6], the nil pointer being the first
    instant of 1970), and [CreationTime] holds the same value. *)
Theorem NewEvent_zero_time_uses_creation `{Decoders} cwEvent group message stream id :
  cloudwatchlogs.Message cwEvent = Some message →
  cloudwatchlogs.LogStreamName cwEvent = Some stream →
  cloudwatchlogs.EventId cwEvent = Some id →
  time.IsZero (Time (parse_message message)) = true →
  ∃ e, NewEvent cwEvent group = Returns e
    ∧ Time (Slog e) = CreationTime e
    ∧ match cloudwatchlogs.Timestamp cwEvent with
      | None => CreationTime e = time.Unix 0 0
      | Some ms =>
          int64.in_range ms →
          CreationTime e = time.Unix (Z.quot ms 1000) (Z.rem ms 1000 * 10 ^ 6)
          ∧ CreationTime e
            = time.mkTime (ms / 1000 + time.unixToInternal) (ms mod 1000 * 10 ^ 6)
      end.
Proof.
  intros Hm Hs Hi Hz.
  destruct (NewEvent_fields cwEvent group _ _ _ Hm Hs Hi)
    as (e & He & _ & _ & _ & _ & Hcr & Hslog).
  exists e. split; [done|]. rewrite Hz in Hslog. rewrite Hslog, Hcr. split; [done|].
  destruct (cloudwatchlogs.Timestamp cwEvent) as [ms|]; [|done].
  intros Hms. split.
  - by apply ParseAWSTimestamp_Unix.
  - by apply ParseAWSTimestamp_floor.
Qed.

Lemma NewEvent_zero_time_uses_creation_witness :
  ∃ e, NewEvent (H := sample.decoders)
         (spec.record_of "connection reset by peer" (Some 1700000000000)) "group"
       = Returns e
    ∧ Time (Slog e) = CreationTime e
    ∧ (int64.in_range 1700000000000 →
       CreationTime e
       = time.Unix (Z.quot 1700000000000 1000) (Z.rem 1700000000000 1000 * 10 ^ 6)
       ∧ CreationTime e
         = time.mkTime (1700000000000 / 1000 + time.unixToInternal)
                       (1700000000000 mod 1000 * 10 ^ 6)).
Proof.
  apply (NewEvent_zero_time_uses_creation
           (spec.record_of "connection reset by peer" (Some 1700000000000)) "group"
           "connection reset by peer" "worker-1" "37"); reflexivity.
Defined.

(* ================================================================== *)
(** * Properties: the short stream name *)

Section TaskShort_facts.
Import spec.

Lemma match_repeat_app cls n g r :
  String.length g = n → forallb cls g = true →
  regexp.match_repeat cls n (g +:+ r) = Some r.
Proof.
  intros <-. induction g as [|c g IH]; [done|]. rewrite append_cons. simpl.
  intros [-> Hg]%andb_true_iff. by apply IH.
Qed.

Lemma match_repeat_inv cls n s r :
  regexp.match_repeat cls n s = Some r →
  ∃ g, s = g +:+ r ∧ String.length g = n ∧ forallb cls g = true.
Proof.
  revert s. induction n as [|n IH]; simpl; intros s Hs.
  - exists EmptyString. by simplify_eq.
  - destruct s as [|c s]; [done|]. destruct (cls c) eqn:Hc; [|done].
    destruct (IH _ Hs) as (g & -> & <- & Hg).
    exists (String c g). rewrite append_cons. simpl. by rewrite Hc, Hg.
Qed.

(** The pattern matches exactly the texts of the UUID shape. *)
Lemma MatchString_uuid cls s :
  regexp.MatchString (uuid_pattern cls) s = true ↔ uuid_text cls s.
Proof.
  split.
  - unfold uuid_pattern. cbn [regexp.MatchString]. intros Hm.
    destruct (regexp.match_repeat cls 8 s) as [r1|] eqn:H1; [|done].
    destruct r1 as [|c1 r1]; [done|].
    apply andb_true_iff in Hm as [<-%Ascii.eqb_eq Hm].
    destruct (regexp.match_repeat cls 4 r1) as [r2|] eqn:H2; [|done].
    destruct r2 as [|c2 r2]; [done|].
    apply andb_true_iff in Hm as [<-%Ascii.eqb_eq Hm].
    destruct (regexp.match_repeat cls 4 r2) as [r3|] eqn:H3; [|done].
    destruct r3 as [|c3 r3]; [done|].
    apply andb_true_iff in Hm as [<-%Ascii.eqb_eq Hm].
    destruct (regexp.match_repeat cls 4 r3) as [r4|] eqn:H4; [|done].
    destruct r4 as [|c4 r4]; [done|].
    apply andb_true_iff in Hm as [<-%Ascii.eqb_eq Hm].
    destruct (regexp.match_repeat cls 12 r4) as [r5|] eqn:H5; [|done].
    destruct r5; [|done].
    apply match_repeat_inv in H1 as (g1 & -> & Hl1 & Hg1).
    apply match_repeat_inv in H2 as (g2 & -> & Hl2 & Hg2).
    apply match_repeat_inv in H3 as (g3 & -> & Hl3 & Hg3).
    apply match_repeat_inv in H4 as (g4 & -> & Hl4 & Hg4).
    apply match_repeat_inv in H5 as (g5 & -> & Hl5 & Hg5).
    exists g1, g2, g3, g4, g5. rewrite append_nil_r. done.
  - intros (g1 & g2 & g3 & g4 & g5 & -> & L1 & L2 & L3 & L4 & L5 & F1 & F2 & F3 & F4 & F5).
    unfold uuid_pattern. cbn [regexp.MatchString].
    rewrite (match_repeat_app cls 8 g1) by done. rewrite Ascii.eqb_refl. cbn [andb].
    rewrite (match_repeat_app cls 4 g2) by done. rewrite Ascii.eqb_refl. cbn [andb].
    rewrite (match_repeat_app cls 4 g3) by done. rewrite Ascii.eqb_refl. cbn [andb].
    rewrite (match_repeat_app cls 4 g4) by done. rewrite Ascii.eqb_refl. cbn [andb].
    rewrite <- (append_nil_r g5), (match_repeat_app cls 12 g5) by done. done.
Qed.

Lemma TaskUUIDPattern_uuid s :
  regexp.MatchString TaskUUIDPattern s = true ↔ uuid_text is_alnum s.
Proof. apply (MatchString_uuid is_alnum). Qed.

(** The first piece of a split is the first segment. *)
Lemma Split_first_segment s :
  ∃ ps, gostrings.Split s "-" = first_segment s :: ps.
Proof.
  induction s as [|c s [ps IH]]; simpl; [by eexists|].
  destruct (Ascii.eqb c "-"); [by eexists|].
  rewrite IH. by eexists.
Qed.

Lemma is_alnum_not_hyphen c : is_alnum c = true → Ascii.eqb c "-" = false.
Proof.
  destruct c as [[] [] [] [] [] [] [] []]; vm_compute; congruence.
Qed.

Lemma first_segment_group g r :
  forallb is_alnum g = true → first_segment (g +:+ String "-" r) = g.
Proof.
  induction g as [|c g IH]; [done|]. rewrite append_cons. simpl.
  intros [Hc Hg]%andb_true_iff. rewrite (is_alnum_not_hyphen c Hc), IH; done.
Qed.

(** [TaskShort] always returns; the index into the split is in range. *)
Lemma TaskShort_returns e :
  TaskShort e
  = Returns (if regexp.MatchString TaskUUIDPattern (Stream e)
             then first_segment (Stream e) else Stream e).
Proof.
  unfold TaskShort. destruct (regexp.MatchString _ _); [|done].
  destruct (Split_first_segment (Stream e)) as [ps ->]. done.
Qed.

(** On a match, the first segment is the first eight bytes. *)
Lemma TaskShort_first_eight e :
  uuid_text is_alnum (Stream e) →
  TaskShort e = Returns (substring 0 8 (Stream e)).
Proof.
  intros Hu. rewrite TaskShort_returns.
  rewrite (proj2 (TaskUUIDPattern_uuid _) Hu).
  destruct Hu as (g1 & g2 & g3 & g4 & g5 & -> & L1 & _ & _ & _ & _ & F1 & _).
  rewrite first_segment_group by done.
  by rewrite <- L1, substring_append_l.
Qed.

End TaskShort_facts.

Lemma not_hex_uuid_z :
  ¬ spec.uuid_text is_hex "zzzzzzzz-zzzz-zzzz-zzzz-zzzzzzzzzzzz".
Proof.
  intros (g1 & g2 & g3 & g4 & g5 & Hs & L1 & _ & _ & _ & _ & F1 & _).
  destruct g1 as [|c g1]; [done|]. rewrite append_cons in Hs. simpl in F1.
  injection Hs as <- _. done.
Qed.

(** C9, as the claim states it, fails: the stream below is no UUID text
    of hex groups, and yet the view shortens it. *)
Lemma TaskShort_hex_counterexample :
  ¬ (∀ e : Event,
       (spec.uuid_text is_hex (Stream e) →
        TaskShort e = Returns (spec.first_segment (Stream e)))
       ∧ (¬ spec.uuid_text is_hex (Stream e) → TaskShort e = Returns (Stream e))).
Proof.
  intros Hclaim.
  destruct (Hclaim (spec.event_of_stream "zzzzzzzz-zzzz-zzzz-zzzz-zzzzzzzzzzzz"))
    as [_ Hno].
  specialize (Hno not_hex_uuid_z). vm_compute in Hno. discriminate Hno.
Qed.

(** C9 (amended): the view returns the first hyphen-delimited segment
    of the stream exactly when the stream has the UUID text shape of
    groups of 8, 4, 4, 4 and 12 ASCII letters or digits between hyphens,
    and the stream unchanged otherwise; the two streams of the
    specification come out as it says. *)
Theorem TaskShort_spec :
  (∀ e : Event,
     (spec.uuid_text is_alnum (Stream e) →
      TaskShort e = Returns (spec.first_segment (Stream e)))
     ∧ (¬ spec.uuid_text is_alnum (Stream e) → TaskShort e = Returns (Stream e)))
  ∧ TaskShort (spec.event_of_stream "12345678-aaaa-bbbb-cccc-123456789012")
    = Returns "12345678"%string
  ∧ TaskShort (spec.event_of_stream "worker-1") = Returns "worker-1"%string.
Proof.
  split; [|split; reflexivity].
  intros e. rewrite TaskShort_returns. split; intros Hu.
  - by rewrite (proj2 (TaskUUIDPattern_uuid _) Hu).
  - destruct (regexp.MatchString TaskUUIDPattern (Stream e)) eqn:Hm; [|done].
    by apply TaskUUIDPattern_uuid in Hm.
Qed.

(* ================================================================== *)
(** * Properties: the order by creation time *)

Section ByCreationTime_facts.
Import spec.

Lemma Before_strictly t u : time.Before t u = true ↔ strictly_before t u.
Proof.
  unfold time.Before, strictly_before.
  rewrite orb_true_iff, andb_true_iff, Z.ltb_lt, Z.eqb_eq, Z.ltb_lt. done.
Qed.

Lemma Before_false t u :
  time.Before t u = false
  ↔ time.sec u < time.sec t ∨ (time.sec u = time.sec t ∧ time.nsec u <= time.nsec t).
Proof.
  rewrite <- not_true_iff_false, Before_strictly. unfold strictly_before. lia.
Qed.

#[local] Instance created_le_refl : Reflexive created_le.
Proof. intros x. unfold created_le. apply Before_false. lia. Qed.

#[local] Instance created_le_trans : Transitive created_le.
Proof.
  intros x y z. unfold created_le. rewrite !Before_false. lia.
Qed.

#[local] Instance created_le_total : Total created_le.
Proof.
  intros x y. unfold created_le. rewrite !Before_false. lia.
Qed.

(** [Less] on two indices in range. *)
Lemma Less_Before (b : ByCreationTime) i j x y :
  b !! i = Some x → b !! j = Some y →
  sort.Less b i j = Returns (time.Before (CreationTime x) (CreationTime y)).
Proof. intros Hi Hj. simpl. unfold index. by rewrite Hi, Hj. Qed.

(** [Less] panics on an index out of range. *)
Lemma Less_out_of_range (b : ByCreationTime) i j :
  (length b ≤ i)%nat → sort.Less b i j = Panics.
Proof.
  intros Hi. simpl. unfold index. by rewrite (lookup_ge_None_2 b i Hi).
Qed.

Lemma lookup_adjacent_0 (p : list Event) y x r :
  (p ++ y :: x :: r) !! length p = Some y.
Proof. induction p as [|z p IH]; simpl; done. Qed.

Lemma lookup_adjacent_1 (p : list Event) y x r :
  (p ++ y :: x :: r) !! S (length p) = Some x.
Proof. induction p as [|z p IH]; simpl; done. Qed.

Lemma insert_adjacent (p : list Event) y x r :
  <[length p := x]> (<[S (length p) := y]> (p ++ y :: x :: r)) = p ++ x :: y :: r.
Proof. induction p as [|z p IH]; simpl; [done|]. by rewrite IH. Qed.

Lemma Swap_adjacent (p : list Event) y x r :
  sort.Swap (p ++ y :: x :: r) (S (length p)) (length p) = Returns (p ++ x :: y :: r).
Proof.
  cbn [sort.Swap ByCreationTime_Interface]. unfold index.
  rewrite lookup_adjacent_1, lookup_adjacent_0. cbn [deref mbind outcome_bind].
  by rewrite insert_adjacent.
Qed.

Lemma Less_adjacent (p : list Event) y x r :
  sort.Less (p ++ y :: x :: r) (S (length p)) (length p)
  = Returns (time.Before (CreationTime x) (CreationTime y)).
Proof.
  apply Less_Before; [apply lookup_adjacent_1|apply lookup_adjacent_0].
Qed.

Lemma sink_sink_rev l x r :
  sort.sink (reverse l ++ x :: r) 0 (length l) = Returns (reverse (sink_rev x l) ++ r).
Proof.
  revert r. induction l as [|y l IH]; intros r; [done|].
  cbn [length sort.sink sink_rev]. rewrite decide_True by lia.
  rewrite reverse_cons, <- (assoc_L (++)). cbn [app].
  rewrite <- (length_reverse l), Less_adjacent. cbn [mbind outcome_bind].
  destruct (time.Before (CreationTime x) (CreationTime y)).
  - rewrite Swap_adjacent. cbn [mbind outcome_bind].
    rewrite length_reverse, IH. by rewrite reverse_cons, <- (assoc_L (++)).
  - by rewrite !reverse_cons, <- !(assoc_L (++)).
Qed.

Lemma length_sink_rev x l : length (sink_rev x l) = S (length l).
Proof.
  induction l as [|y l IH]; simpl; [done|].
  destruct (time.Before _ _); simpl; by rewrite ?IH.
Qed.

Lemma fold_sink_run r : ∀ l,
  foldl (λ acc i, data' ← acc; sort.sink data' 0 i) (Returns (reverse l ++ r))
        (seq (length l) (length r))
  = Returns (run l r).
Proof.
  induction r as [|x r IH]; intros l.
  - simpl. by rewrite (right_id_L [] (++)).
  - cbn [length seq foldl run]. cbn [mbind outcome_bind].
    rewrite sink_sink_rev, <- (length_sink_rev x l). apply IH.
Qed.

(** The insertion sort of a whole slice returns, with this list. *)
Lemma insertionSort_run (b : ByCreationTime) :
  sort.insertionSort b 0 (sort.Len b) = Returns (run [] b).
Proof.
  unfold sort.insertionSort. destruct b as [|x r]; [done|].
  cbn [sort.Len ByCreationTime_Interface length run sink_rev].
  replace (S (length r) - (0 + 1))%nat with (length r) by lia.
  apply (fold_sink_run r [x]).
Qed.

Lemma sink_rev_Permutation x l : sink_rev x l ≡ₚ x :: l.
Proof.
  induction l as [|y l IH]; simpl; [done|].
  destruct (time.Before _ _); [|done].
  rewrite IH. apply Permutation_swap.
Qed.

Lemma run_Permutation r : ∀ l, run l r ≡ₚ l ++ r.
Proof.
  induction r as [|x r IH]; intros l; simpl.
  - by rewrite reverse_Permutation, (right_id_L [] (++)).
  - rewrite IH, sink_rev_Permutation. simpl. apply Permutation_middle.
Qed.

Lemma sink_rev_sorted x l :
  StronglySorted (flip created_le) l → StronglySorted (flip created_le) (sink_rev x l).
Proof.
  induction 1 as [|y l Hl IH Hy]; simpl.
  - by repeat constructor.
  - destruct (time.Before (CreationTime x) (CreationTime y)) eqn:Hxy.
    + constructor; [done|].
      rewrite (sink_rev_Permutation x l). constructor; [|done].
      unfold flip, created_le. apply Before_false.
      apply Before_strictly in Hxy. unfold strictly_before in Hxy. lia.
    + constructor; [by constructor|]. constructor; [done|].
      eapply Forall_impl; [exact Hy|]. intros z Hz.
      unfold flip, created_le in *. revert Hxy Hz. rewrite !Before_false. lia.
Qed.

Lemma run_sorted r : ∀ l,
  StronglySorted (flip created_le) l → StronglySorted created_le (run l r).
Proof.
  induction r as [|x r IH]; intros l Hl; simpl.
  - apply Sorted_StronglySorted; [apply _|].
    apply (Sorted_reverse (flip created_le)). by apply StronglySorted_Sorted.
  - by apply IH, sink_rev_sorted.
Qed.

Lemma sink_rev_created_at t x l :
  created_at t (sink_rev x l) = created_at t (x :: l).
Proof.
  unfold created_at. induction l as [|y l IH]; simpl; [done|].
  destruct (time.Before (CreationTime x) (CreationTime y)) eqn:Hxy; [|done].
  rewrite (filter_cons _ y), IH, !(filter_cons _ x), (filter_cons _ y).
  repeat case_decide; try done.
  assert (CreationTime x = CreationTime y) as Heq by congruence.
  rewrite Heq in Hxy. apply Before_strictly in Hxy.
  unfold strictly_before in Hxy. lia.
Qed.

Lemma run_created_at t r : ∀ l,
  created_at t (run l r) = created_at t (reverse l ++ r).
Proof.
  induction r as [|x r IH]; intros l; simpl.
  - by rewrite (right_id_L [] (++)).
  - rewrite IH. unfold created_at.
    rewrite !filter_app, !filter_reverse.
    fold (created_at t (sink_rev x l)). rewrite sink_rev_created_at.
    unfold created_at. rewrite !(filter_cons _ x).
    case_decide; [|done].
    by rewrite reverse_cons, <- (assoc_L (++)).
Qed.

End ByCreationTime_facts.

(** C10: [Less] is the strict order of the creation times; not being
    created after is a total preorder; and the stable insertion sort
    driven by [Len], [Less] and [Swap] returns, for every slice, a
    permutation with nondecreasing creation times in which the events
    of equal creation time keep the order they had; creation times
    5, 1, 3 come out as 1, 3, 5. *)
Theorem ByCreationTime_sorts :
  (∀ (b : ByCreationTime) i j x y,
     b !! i = Some x → b !! j = Some y →
     ∃ lt, sort.Less b i j = Returns lt
       ∧ (lt = true ↔ spec.strictly_before (CreationTime x) (CreationTime y)))
  ∧ (Reflexive spec.created_le ∧ Transitive spec.created_le ∧ Total spec.created_le)
  ∧ (∀ b : ByCreationTime,
       ∃ b', sort.insertionSort b 0 (sort.Len b) = Returns b'
         ∧ b' ≡ₚ b
         ∧ StronglySorted spec.created_le b'
         ∧ ∀ t, spec.created_at t b' = spec.created_at t b)
  ∧ sort.insertionSort
      [spec.event_created "a" 5; spec.event_created "b" 1; spec.event_created "c" 3] 0 3
    = Returns [spec.event_created "b" 1; spec.event_created "c" 3; spec.event_created "a" 5]
  ∧ sort.insertionSort
      [spec.event_created "a" 5; spec.event_created "b" 1; spec.event_created "c" 5;
       spec.event_created "d" 1] 0 4
    = Returns [spec.event_created "b" 1; spec.event_created "d" 1;
               spec.event_created "a" 5; spec.event_created "c" 5].
Proof.
  split; [|split; [|split; [|split]]].
  - intros b i j x y Hi Hj. eexists. split; [by apply Less_Before|].
    apply Before_strictly.
  - split; [apply created_le_refl|split; [apply created_le_trans|apply created_le_total]].
  - intros b. exists (spec.run [] b). split; [apply insertionSort_run|].
    split; [apply (run_Permutation b [])|].
    split; [apply run_sorted; constructor|].
    intros t. apply (run_created_at t b []).
  - reflexivity.
  - reflexivity.
Qed.

(* ================================================================== *)
(** * Further properties: the record parser *)

Import notions.

Lemma forallb_isSpace_skip w : forallb isSpace w = true → skip_space w = EmptyString.
Proof.
  induction w as [|c w IH]; [done|]. simpl.
  intros [-> Hw]%andb_true_iff. auto.
Qed.

Lemma skip_space_nil_forallb r : skip_space r = EmptyString → forallb isSpace r = true.
Proof.
  intros Hr. destruct (skip_space_split r) as (w & Hw & Hs).
  rewrite Hr, append_nil_r in Hw. by subst.
Qed.

Lemma skip_space_spaces_app w s :
  forallb isSpace w = true → skip_space (w +:+ s) = skip_space s.
Proof.
  induction w as [|c w IH]; [done|]. rewrite append_cons. simpl.
  intros [-> Hw]%andb_true_iff. auto.
Qed.

Lemma spaces_number_end w : forallb isSpace w = true → number_end w = true.
Proof.
  destruct w as [|c w]; [done|]. simpl. intros [Hc _]%andb_true_iff.
  by apply space_no_number.
Qed.

(** White space around a valid text changes neither the check nor the
    token. *)
Lemma checkValid_pad w data w' :
  forallb isSpace w = true → forallb isSpace w' = true →
  checkValid data = true →
  checkValid (w +:+ data +:+ w') = true ∧ token (w +:+ data +:+ w') = token data.
Proof.
  intros Hw Hw' Hv. unfold checkValid, token in *.
  rewrite skip_space_spaces_app by done.
  destruct (scan (skip_space data)) as [r|] eqn:Hs; [|done].
  destruct (skip_space r) eqn:Hr; [|done].
  apply skip_space_nil_forallb in Hr.
  destruct (scan_spec _ _ Hs) as (p & Hp & Hne & Hloc).
  destruct p as [|c p]; [done|].
  destruct (skip_space_split data) as (ws & Hdata & Hws).
  pose proof (skip_space_head data) as Hh. rewrite Hp, append_cons in Hh.
  simpl in Hh. unfold no_space in Hh. apply negb_true_iff in Hh.
  assert (Hsk : skip_space (data +:+ w') = String c p +:+ (r +:+ w')).
  { rewrite Hdata at 1. rewrite Hp, !append_assoc, append_cons.
    by rewrite skip_space_ws. }
  rewrite Hsk, Hloc; cycle 1.
  { apply spaces_number_end. by rewrite forallb_append, Hr, Hw'. }
  rewrite forallb_isSpace_skip by by rewrite forallb_append, Hr, Hw'.
  split; [done|]. by rewrite consumed_append, Hp, consumed_append.
Qed.

Lemma value_text_null v : value_text v → kind_of v = Null → v = "null"%string.
Proof.
  intros [Hs _] Hk. destruct v as [|c v]; [done|].
  unfold scan in Hs. rewrite scan_value_eq in Hs. unfold kind_of in Hk.
  revert Hs Hk.
  destruct (Ascii.eqb c "{"); [done|]. destruct (Ascii.eqb c "["); [done|].
  destruct (Ascii.eqb c dq); [done|].
  destruct (Ascii.eqb c "t") eqn:Ht.
  { apply Ascii.eqb_eq in Ht as ->. done. }
  destruct (Ascii.eqb c "f") eqn:Hf.
  { apply Ascii.eqb_eq in Hf as ->. done. }
  destruct (Ascii.eqb c "n") eqn:Hn; [|done].
  apply Ascii.eqb_eq in Hn as ->.
  by intros ->%strip_local _.
Qed.

Lemma kind_of_String_head c r : kind_of (String c r) = String_ ↔ c = dq.
Proof.
  unfold kind_of. split.
  - destruct (Ascii.eqb c "{"); [done|]. destruct (Ascii.eqb c "["); [done|].
    destruct (Ascii.eqb c dq) eqn:Hq; [by apply Ascii.eqb_eq in Hq|].
    destruct (Ascii.eqb c "n"); [done|].
    by destruct (Ascii.eqb c "t" || Ascii.eqb c "f").
  - by intros ->.
Qed.

Lemma scan_string_closing s r :
  scan_string s = Some r → ∃ b, s = b +:+ String dq r.
Proof.
  remember (String.length s) as n eqn:Hn. revert s Hn r.
  induction n as [n IH] using lt_wf_ind. intros s Hn r.
  destruct s as [|c s]; [done|]. simpl.
  destruct (Ascii.eqb c dq) eqn:Hq.
  { apply Ascii.eqb_eq in Hq as ->. intros [= <-]. by exists EmptyString. }
  destruct (Ascii.eqb c "\") eqn:Hb.
  - destruct s as [|e s]; [done|]. destruct (is_escape e) eqn:He.
    + intros Hs. simpl in Hn.
      destruct (IH (String.length s) ltac:(lia) s eq_refl r Hs) as (b & ->).
      by exists (String c (String e b)).
    + destruct (Ascii.eqb e "u") eqn:Hu; [|done].
      destruct s as [|h1 [|h2 [|h3 [|h4 s]]]]; try done.
      destruct (is_hex h1 && is_hex h2 && is_hex h3 && is_hex h4) eqn:Hh; [|done].
      intros Hs. simpl in Hn.
      destruct (IH (String.length s) ltac:(lia) s eq_refl r Hs) as (b & ->).
      by exists (String c (String e (String h1 (String h2 (String h3 (String h4 b)))))).
  - destruct (code c <? 32)%N eqn:Hctl; [done|].
    intros Hs. simpl in Hn.
    destruct (IH (String.length s) ltac:(lia) s eq_refl r Hs) as (b & ->).
    by exists (String c b).
Qed.

Lemma substring_skip b s : substring (String.length b) (String.length s) (b +:+ s) = s.
Proof.
  induction b as [|c b IH].
  - rewrite append_nil_l. cbn [String.length]. rewrite <- (append_nil_r s) at 2.
    apply substring_append_l.
  - rewrite append_cons. simpl. exact IH.
Qed.

Lemma substring_last b c :
  substring (String.length b) 1 (b +:+ String c EmptyString) = String c EmptyString.
Proof. exact (substring_skip b (String c EmptyString)). Qed.

(** A string literal is a quote, a body and a quote. *)
Lemma value_text_string v :
  value_text v → kind_of v = String_ →
  ∃ b, v = String dq (b +:+ String dq EmptyString).
Proof.
  intros [Hs _] Hk. destruct v as [|c v]; [done|].
  unfold scan in Hs. rewrite scan_value_eq in Hs. unfold kind_of in Hk.
  revert Hs Hk.
  destruct (Ascii.eqb c "{"); [done|]. destruct (Ascii.eqb c "["); [done|].
  destruct (Ascii.eqb c dq) eqn:Hq; cycle 1.
  { destruct (Ascii.eqb c "n"); [done|].
    by destruct (Ascii.eqb c "t" || Ascii.eqb c "f"). }
  apply Ascii.eqb_eq in Hq as ->.
  intros (b & ->)%scan_string_closing _. eauto.
Qed.

Section Time_facts.
Context `{Decoders}.

(** [Time.UnmarshalJSON] on a string literal reads its body. *)
Lemma Time_UnmarshalJSON_string t b :
  Time_UnmarshalJSON t (String dq (b +:+ String dq EmptyString)) = parseRFC3339 b.
Proof.
  unfold Time_UnmarshalJSON. cbn [String.eqb Ascii.eqb].
  replace (String.eqb (String dq (b +:+ String dq EmptyString)) "null") with false
    by (symmetry; by apply String.eqb_neq).
  rewrite Ascii.eqb_refl. cbn [String.length andb].
  rewrite length_append. cbn [String.length].
  replace (String.length b + 1 - 1)%nat with (String.length b) by lia.
  rewrite substring_last, String.eqb_refl.
  rewrite substring_append_l.
  by destruct (String.length b + 1)%nat eqn:Hl; [lia|].
Qed.

Lemma inner_string b : inner (String dq (b +:+ String dq EmptyString)) = b.
Proof.
  unfold inner. cbn [String.length]. rewrite length_append. cbn [String.length].
  replace (S (String.length b + 1) - 2)%nat with (String.length b) by lia.
  simpl. apply substring_append_l.
Qed.

Lemma Time_UnmarshalJSON_other t v :
  kind_of v ≠ String_ → v ≠ "null"%string → Time_UnmarshalJSON t v = None.
Proof.
  intros Hk Hn. unfold Time_UnmarshalJSON.
  apply String.eqb_neq in Hn. rewrite Hn.
  destruct v as [|c r]; [done|].
  destruct (Ascii.eqb c dq) eqn:Hq; [|done].
  apply Ascii.eqb_eq in Hq as ->. by destruct Hk.
Qed.

(** The decoding of a time value, by its kind. *)
Lemma unmarshal_Time_kind v t :
  value_text v →
  unmarshal v t =
    match kind_of v with
    | Null => Some t
    | String_ => parseRFC3339 (inner v)
    | _ => None
    end.
Proof.
  intros Hv. rewrite unmarshal_Time_value_text by done.
  destruct (kind_of v) eqn:Hk.
  - by rewrite (value_text_null v Hv Hk).
  - apply Time_UnmarshalJSON_other; [by rewrite Hk|].
    intros ->. done.
  - apply Time_UnmarshalJSON_other; [by rewrite Hk|].
    intros ->. done.
  - destruct (value_text_string v Hv Hk) as (b & ->).
    by rewrite Time_UnmarshalJSON_string, inner_string.
  - apply Time_UnmarshalJSON_other; [by rewrite Hk|].
    intros ->. done.
  - apply Time_UnmarshalJSON_other; [by rewrite Hk|].
    intros ->. done.
Qed.

Lemma unmarshal_null_kind data :
  checkValid data = true → kind_of (token data) = Null →
  unmarshal data zero_SlogEvent = Some zero_SlogEvent.
Proof.
  intros Hv Hn. rewrite unmarshal_SlogEvent, Hv.
  rewrite (UnmarshalJSON_fields _ _ ∅); [done|].
  rewrite unmarshal_RawMap_value_text by (by apply token_value_text).
  by rewrite Hn.
Qed.

(** What a call of [UnmarshalJSON] that returns nil read and left, for
    any receiver. *)
Lemma UnmarshalJSON_inv s tok s' :
  UnmarshalJSON s tok = Some s' →
  ∃ raw, unmarshal tok (∅ : gmap string string) = Some raw
    ∧ match raw !! "level" with
      | Some v => unmarshal v (Level s) | None => Some (Level s) end = Some (Level s')
    ∧ match raw !! "time" with
      | Some v => unmarshal v (Time s) | None => Some (Time s) end = Some (Time s')
    ∧ match raw !! "source" with
      | Some v => unmarshal v (Source s) | None => Some (Source s) end
      = Some (Source s')
    ∧ match raw !! "msg" with
      | Some v => unmarshal v (Message s) | None => Some (Message s) end
      = Some (Message s')
    ∧ Data s' = payload raw.
Proof.
  intros Hs.
  destruct (unmarshal tok (∅ : gmap string string)) as [raw|] eqn:Hraw;
    [|by unfold UnmarshalJSON in Hs; rewrite Hraw in Hs].
  exists raw. split; [done|].
  rewrite (UnmarshalJSON_fields _ _ _ Hraw) in Hs.
  destruct (match raw !! "level" with
            | Some v => unmarshal v (Level s) | None => Some (Level s) end);
    [|done]. cbn [mbind option_bind] in Hs.
  destruct (match raw !! "time" with
            | Some v => unmarshal v (Time s) | None => Some (Time s) end);
    [|done]. cbn [mbind option_bind] in Hs.
  destruct (match raw !! "source" with
            | Some v => unmarshal v (Source s) | None => Some (Source s) end);
    [|done]. cbn [mbind option_bind] in Hs.
  destruct (match raw !! "msg" with
            | Some v => unmarshal v (Message s) | None => Some (Message s) end);
    [|done]. cbn [mbind option_bind] in Hs.
  by injection Hs as <-.
Qed.

End Time_facts.

Section parser_extras.
Context `{Decoders}.

Lemma decodes_match {A} `{Unmarshal A} (raw : gmap string string) key (cur : A) :
  decodes raw key cur ↔
  is_Some (match raw !! key with
           | Some v => unmarshal v cur | None => Some cur end).
Proof. unfold decodes. destruct (raw !! key); [done|]. split; eauto. Qed.

(** The payload of every parsed record leaves the fixed keys out. *)
Lemma parse_message_payload_reserved data key :
  reserved key = true → Data (parse_message data) !! key = None.
Proof.
  intros Hr. unfold parse_message.
  destruct (unmarshal data zero_SlogEvent) as [s|] eqn:Hs; [|done].
  rewrite unmarshal_SlogEvent in Hs. destruct (checkValid data); [|done].
  apply UnmarshalJSON_inv in Hs as (raw & _ & _ & _ & _ & _ & ->).
  by rewrite payload_lookup, Hr.
Qed.

End parser_extras.

(** X1: the parser reads a text without error exactly when the text is
    valid JSON and its value is [null], or is an object in which every
    present key of the fixed schema decodes; in every other case
    [NewEvent] takes the fallback record. *)
Theorem parse_succeeds_iff `{Decoders} data :
  is_Some (unmarshal data zero_SlogEvent) ↔
    checkValid data = true
    ∧ (kind_of (token data) = Null
       ∨ (kind_of (token data) = Object
          ∧ decodes (fields (token data)) "level" ecslogs.zero
          ∧ decodes (fields (token data)) "time" time.zero
          ∧ decodes (fields (token data)) "source" zero_SourceInfo
          ∧ decodes (fields (token data)) "msg" EmptyString)).
Proof.
  split.
  - intros [s Hs]. rewrite unmarshal_SlogEvent in Hs.
    destruct (checkValid data) eqn:Hv; [|done]. split; [done|].
    apply UnmarshalJSON_inv in Hs as (raw & Hraw & Hl & Ht & Hsrc & Hm & _).
    rewrite unmarshal_RawMap_value_text in Hraw by (by apply token_value_text).
    destruct (kind_of (token data)) eqn:Hk; try done; [by left|].
    right. injection Hraw as <-. split; [done|]. rewrite !decodes_match.
    cbn [zero_SlogEvent Level Time Source Message] in *.
    unfold fields. rewrite Hl, Ht, Hsrc, Hm. eauto.
  - intros [Hv [Hn|(Hk & Hl & Ht & Hsrc & Hm)]].
    + rewrite unmarshal_null_kind; eauto.
    + apply decodes_match in Hl as [lv Hl], Ht as [tm Ht], Hsrc as [src Hsrc],
        Hm as [msg Hm].
      rewrite (parse_message_object data lv tm src msg); eauto. by split.
Qed.

(** X2: in an object, a message or a time whose value is a number, a
    boolean, an array or an object makes the whole record the fallback
    record, whatever the decoders are. *)
Theorem non_string_msg_or_time_degrades `{Decoders} data key v :
  is_object data → key = "msg"%string ∨ key = "time"%string →
  fields (token data) !! key = Some v →
  kind_of v ≠ String_ → kind_of v ≠ Null →
  parse_message data = fallback data.
Proof.
  intros Hobj Hkey Hv Hs Hn.
  assert (Hvt : value_text v).
  { destruct Hobj as [Hvalid Hk].
    by eapply fields_value_text; [apply token_value_text| |]. }
  apply decode_failure_fallback; [done|].
  destruct Hkey as [-> | ->].
  - right. right. right. exists v. split; [done|].
    rewrite unmarshal_string_value_text by done. by destruct (kind_of v).
  - right. left. exists v. split; [done|].
    rewrite unmarshal_Time_kind by done. by destruct (kind_of v).
Qed.

Lemma non_string_msg_or_time_degrades_witness :
  parse_message (H := sample.decoders) text_msg_object = fallback text_msg_object.
Proof.
  apply (non_string_msg_or_time_degrades (H := sample.decoders) text_msg_object
           "msg" (js "{'text':'x'}")).
  - split; reflexivity.
  - by left.
  - reflexivity.
  - discriminate.
  - discriminate.
Defined.

(** X3: in the record of an object that is parsed without error, the
    message is the decoded [msg] string, and the empty text when [msg]
    is absent or [null]; the time is read from the body of the [time]
    string, and is the zero time when [time] is absent or [null]. *)
Theorem parsed_msg_and_time `{Decoders} data s :
  is_object data → unmarshal data zero_SlogEvent = Some s →
  Message s =
    match fields (token data) !! "msg" with
    | Some v => match kind_of v with String_ => unquote v | _ => EmptyString end
    | None => EmptyString
    end
  ∧ Some (Time s) =
    match fields (token data) !! "time" with
    | Some v =>
        match kind_of v with
        | String_ => parseRFC3339 (inner v)
        | _ => Some time.zero
        end
    | None => Some time.zero
    end.
Proof.
  intros Hobj Hs.
  destruct (unmarshal_object_inv data s Hobj Hs) as (_ & Ht & _ & Hm & _).
  destruct Hobj as [Hvalid Hk]. split.
  - destruct (fields (token data) !! "msg") as [v|] eqn:Hv; [|by injection Hm].
    rewrite unmarshal_string_value_text in Hm
      by (by eapply fields_value_text; [apply token_value_text| |]).
    destruct (kind_of v); by simplify_eq.
  - destruct (fields (token data) !! "time") as [v|] eqn:Hv; [|done].
    rewrite unmarshal_Time_kind in Ht
      by (by eapply fields_value_text; [apply token_value_text| |]).
    destruct (kind_of v); congruence.
Qed.

Lemma parsed_msg_and_time_witness :
  Message (parse_message (H := sample.decoders) text_nulls) = EmptyString
  ∧ Some (Time (parse_message (H := sample.decoders) text_nulls)) = Some time.zero.
Proof.
  apply (parsed_msg_and_time (H := sample.decoders) text_nulls
           (parse_message (H := sample.decoders) text_nulls)).
  - split; reflexivity.
  - reflexivity.
Defined.

(** X4: the payload of an event that [NewEvent] returns never has one
    of the four keys of the fixed schema, whatever the message is. *)
Theorem event_payload_never_reserved `{Decoders} cwEvent group e key :
  NewEvent cwEvent group = Returns e → reserved key = true →
  Data (Slog e) !! key = None.
Proof.
  intros He Hr.
  destruct (proj1 (NewEvent_returns_iff cwEvent group) (ex_intro _ e He))
    as ([m Hm] & [st Hst] & [id Hid]).
  destruct (NewEvent_fields cwEvent group m st id Hm Hst Hid)
    as (e' & He' & _ & _ & _ & _ & _ & Hslog).
  rewrite He in He'. injection He' as <-. rewrite Hslog.
  destruct (time.IsZero _); by apply parse_message_payload_reserved.
Qed.

Lemma event_payload_never_reserved_witness :
  Data (Slog (returned (NewEvent (H := sample.decoders)
                          (record_of text_nulls (Some 1700000000000)) "api")))
    !! "level" = None.
Proof.
  apply (event_payload_never_reserved (H := sample.decoders)
           (record_of text_nulls (Some 1700000000000)) "api").
  - reflexivity.
  - reflexivity.
Defined.

(** X5: the payload of an object that is parsed without error has
    exactly the members outside of the fixed schema; a string value is
    stored decoded, the value [null] as the empty text, and a number, a
    boolean, an array or an object as its raw text. *)
Theorem payload_rule `{Decoders} data s key :
  is_object data → unmarshal data zero_SlogEvent = Some s →
  Data s !! key =
    if reserved key then None
    else (λ v, match kind_of v with
               | String_ => unquote v
               | Null => EmptyString
               | _ => v
               end) <$> fields (token data) !! key.
Proof. apply payload_characterisation. Qed.

Lemma payload_rule_witness :
  Data (parse_message (H := sample.decoders) text_null_field) !! "b"
  = (if reserved "b" then None
     else (λ v, match kind_of v with
                | String_ => sample.unquote v
                | Null => EmptyString
                | _ => v
                end) <$> fields (H := sample.decoders) (token text_null_field) !! "b").
Proof.
  apply (payload_rule (H := sample.decoders) text_null_field
           (parse_message (H := sample.decoders) text_null_field) "b").
  - split; reflexivity.
  - reflexivity.
Defined.

(** X6: [UnmarshalJSON] on a receiver that already holds values keeps
    each fixed field whose key the object does not have, and replaces
    [Data] as a whole by the payload of the object: no earlier entry of
    [Data] stays. *)
Theorem UnmarshalJSON_receiver `{Decoders} s tok s' :
  value_text tok → kind_of tok = Object → UnmarshalJSON s tok = Some s' →
  Data s' = payload (fields tok)
  ∧ (fields tok !! "level" = None → Level s' = Level s)
  ∧ (fields tok !! "time" = None → Time s' = Time s)
  ∧ (fields tok !! "source" = None → Source s' = Source s)
  ∧ (fields tok !! "msg" = None → Message s' = Message s).
Proof.
  intros Hv Hk Hs.
  apply UnmarshalJSON_inv in Hs as (raw & Hraw & Hl & Ht & Hsrc & Hm & Hd).
  rewrite unmarshal_RawMap_value_text, Hk in Hraw by done.
  injection Hraw as <-. fold (fields tok) in *.
  split; [done|].
  repeat split; intros Hnone; rewrite Hnone in *; congruence.
Qed.

Lemma UnmarshalJSON_receiver_witness :
  ∃ s', UnmarshalJSON (H := sample.decoders) used_record text_update = Some s'
    ∧ Data s' = payload (H := sample.decoders) (fields (H := sample.decoders) text_update)
    ∧ Data s' !! "old" = None
    ∧ (fields (H := sample.decoders) text_update !! "level" = None
       → Level s' = Level used_record)
    ∧ Message s' = "after"%string.
Proof.
  eexists. split; [vm_compute; reflexivity|].
  split; [|split; [reflexivity|split; [|reflexivity]]].
  - eapply (UnmarshalJSON_receiver (H := sample.decoders) used_record text_update).
    + split; reflexivity.
    + reflexivity.
    + vm_compute. reflexivity.
  - eapply (UnmarshalJSON_receiver (H := sample.decoders) used_record text_update).
    + split; reflexivity.
    + reflexivity.
    + vm_compute. reflexivity.
Defined.

(** X7: white space in front of and behind a message that is parsed
    without error (a final newline, say) does not change the record. *)
Theorem surrounding_space_ignored `{Decoders} w data w' s :
  forallb isSpace w = true → forallb isSpace w' = true →
  unmarshal data zero_SlogEvent = Some s →
  unmarshal (w +:+ data +:+ w') zero_SlogEvent = Some s
  ∧ parse_message (w +:+ data +:+ w') = s.
Proof.
  intros Hw Hw' Hs.
  assert (Hp : unmarshal (w +:+ data +:+ w') zero_SlogEvent = Some s).
  { rewrite unmarshal_SlogEvent in *.
    destruct (checkValid data) eqn:Hv; [|done].
    destruct (checkValid_pad w data w' Hw Hw' Hv) as [-> ->]. done. }
  split; [done|]. unfold parse_message. by rewrite Hp.
Qed.

Lemma surrounding_space_ignored_witness :
  unmarshal (Unmarshal := Unmarshal_SlogEvent (H := sample.decoders))
    ("  " +:+ text_error +:+ newline) zero_SlogEvent
  = Some (parse_message (H := sample.decoders) text_error)
  ∧ parse_message (H := sample.decoders) ("  " +:+ text_error +:+ newline)
    = parse_message (H := sample.decoders) text_error.
Proof.
  apply (surrounding_space_ignored (H := sample.decoders) "  " text_error newline).
  - reflexivity.
  - reflexivity.
  - reflexivity.
Defined.

(* ================================================================== *)
(** * Further properties: timestamps and event construction *)

Lemma ParseAWSTimestamp_ms_of i : ParseAWSTimestamp i = ParseAWSTimestamp (Some (ms_of i)).
Proof. by destruct i. Qed.

Lemma in_range_0 : int64.in_range 0.
Proof. unfold int64.in_range. lia. Qed.

Lemma IsZero_ParseAWSTimestamp ms :
  int64.in_range ms →
  time.IsZero (ParseAWSTimestamp (Some ms)) = true ↔ ms = zero_time_ms.
Proof.
  intros Hms. rewrite ParseAWSTimestamp_floor by done.
  unfold time.IsZero, zero_time_ms. simpl.
  rewrite andb_true_iff, !Z.eqb_eq.
  pose proof (Z.div_mod ms 1000 ltac:(lia)).
  pose proof (Z.mod_pos_bound ms 1000 ltac:(lia)).
  assert (time.unixToInternal = 62135596800) as -> by reflexivity. lia.
Qed.

Section NewEvent_extras.
Context `{Decoders}.

Lemma NewEvent_inv cwEvent group e :
  NewEvent cwEvent group = Returns e →
  ∃ message,
    cloudwatchlogs.Message cwEvent = Some message
    ∧ CreationTime e = ParseAWSTimestamp (cloudwatchlogs.Timestamp cwEvent)
    ∧ IngestTime e = ParseAWSTimestamp (cloudwatchlogs.IngestionTime cwEvent)
    ∧ Slog e =
        (if time.IsZero (Time (parse_message message))
         then set_Time (ParseAWSTimestamp (cloudwatchlogs.Timestamp cwEvent))
                (parse_message message)
         else parse_message message).
Proof.
  intros He.
  destruct (proj1 (NewEvent_returns_iff cwEvent group) (ex_intro _ e He))
    as ([m Hm] & [st Hst] & [id Hid]).
  destruct (NewEvent_fields cwEvent group m st id Hm Hst Hid)
    as (e' & He' & _ & _ & _ & Hin & Hcr & Hslog).
  rewrite He in He'. injection He' as <-. eauto.
Qed.

(** The message and the time of a parsed object. *)
Lemma parsed_time_absent_or_null data s :
  is_object data → unmarshal data zero_SlogEvent = Some s →
  fields (token data) !! "time" = None
  ∨ (∃ v, fields (token data) !! "time" = Some v ∧ kind_of v = Null) →
  Time s = time.zero.
Proof.
  intros Hobj Hs Ht.
  destruct (unmarshal_object_inv data s Hobj Hs) as (_ & Htm & _).
  destruct Hobj as [Hvalid Hk].
  destruct Ht as [Ht|(v & Ht & Hn)]; rewrite Ht in Htm; [congruence|].
  rewrite unmarshal_Time_kind, Hn in Htm
    by (by eapply fields_value_text; [apply token_value_text| |]).
  congruence.
Qed.

End NewEvent_extras.

(** X8: [NewEvent] returns an event exactly when the message, the
    stream name and the identifier of the record are not nil, and
    panics otherwise; the two timestamps may be nil. *)
Theorem NewEvent_returns_exactly `{Decoders} cwEvent group :
  ((∃ e, NewEvent cwEvent group = Returns e)
   ↔ is_Some (cloudwatchlogs.Message cwEvent)
     ∧ is_Some (cloudwatchlogs.LogStreamName cwEvent)
     ∧ is_Some (cloudwatchlogs.EventId cwEvent))
  ∧ (NewEvent cwEvent group = Panics
     ↔ cloudwatchlogs.Message cwEvent = None
       ∨ cloudwatchlogs.LogStreamName cwEvent = None
       ∨ cloudwatchlogs.EventId cwEvent = None).
Proof.
  split; [apply NewEvent_returns_iff|].
  split.
  - intros Hp.
    destruct (cloudwatchlogs.Message cwEvent) as [m|] eqn:Hm; [|by left].
    destruct (cloudwatchlogs.LogStreamName cwEvent) as [st|] eqn:Hst; [|by right; left].
    destruct (cloudwatchlogs.EventId cwEvent) as [id|] eqn:Hid; [|by right; right].
    destruct (NewEvent_fields cwEvent group m st id Hm Hst Hid) as (e & He & _).
    congruence.
  - intros [Hm|[Hst|Hid]].
    + by apply NewEvent_nil_Message.
    + by apply NewEvent_nil_LogStreamName.
    + by apply NewEvent_nil_EventId.
Qed.

(** X9: the timestamp of an event that [NewEvent] returns is not the
    zero [time.Time], whatever the message is, when the creation
    timestamp of the record is nil or any millisecond count but the one
    of the first instant of year 1. *)
Theorem event_time_never_zero `{Decoders} cwEvent group e :
  NewEvent cwEvent group = Returns e →
  int64.in_range (ms_of (cloudwatchlogs.Timestamp cwEvent)) →
  ms_of (cloudwatchlogs.Timestamp cwEvent) ≠ zero_time_ms →
  time.IsZero (Time (Slog e)) = false.
Proof.
  intros He Hr Hne.
  destruct (NewEvent_inv cwEvent group e He) as (m & _ & _ & _ & ->).
  destruct (time.IsZero (Time (parse_message m))) eqn:Hz; [|done].
  cbn [set_Time Time]. rewrite ParseAWSTimestamp_ms_of.
  apply not_true_iff_false. by rewrite IsZero_ParseAWSTimestamp.
Qed.

Lemma event_time_never_zero_witness :
  time.IsZero (Time (Slog (returned
    (NewEvent (H := sample.decoders) (record_of "connection reset by peer" None) "api"))))
  = false.
Proof.
  apply (event_time_never_zero (H := sample.decoders)
           (record_of "connection reset by peer" None) "api").
  - reflexivity.
  - apply in_range_0.
  - discriminate.
Defined.

(** X10: a message that is an object parsed without error, with no
    [time] member or with the [time] [null], gives an event whose
    timestamp is the creation timestamp of the record, and whose level,
    source, message and payload are those of the object. *)
Theorem absent_or_null_time_uses_creation `{Decoders} cwEvent group e data s :
  NewEvent cwEvent group = Returns e →
  cloudwatchlogs.Message cwEvent = Some data →
  is_object data → unmarshal data zero_SlogEvent = Some s →
  fields (token data) !! "time" = None
  ∨ (∃ v, fields (token data) !! "time" = Some v ∧ kind_of v = Null) →
  Time (Slog e) = ParseAWSTimestamp (cloudwatchlogs.Timestamp cwEvent)
  ∧ Time (Slog e) = CreationTime e
  ∧ Level (Slog e) = Level s ∧ Source (Slog e) = Source s
  ∧ Message (Slog e) = Message s ∧ Data (Slog e) = Data s.
Proof.
  intros He Hm Hobj Hs Ht.
  destruct (NewEvent_inv cwEvent group e He) as (m & Hm' & -> & _ & ->).
  rewrite Hm in Hm'. injection Hm' as <-.
  unfold parse_message. rewrite Hs.
  rewrite (parsed_time_absent_or_null data s Hobj Hs Ht). done.
Qed.

Lemma absent_or_null_time_uses_creation_witness :
  let e := returned (NewEvent (H := sample.decoders)
                       (record_of text_nulls (Some 1700000000123)) "api") in
  Time (Slog e) = ParseAWSTimestamp (Some 1700000000123)
  ∧ Time (Slog e) = CreationTime e
  ∧ Level (Slog e) = Level (parse_message (H := sample.decoders) text_nulls)
  ∧ Source (Slog e) = Source (parse_message (H := sample.decoders) text_nulls)
  ∧ Message (Slog e) = Message (parse_message (H := sample.decoders) text_nulls)
  ∧ Data (Slog e) = Data (parse_message (H := sample.decoders) text_nulls).
Proof.
  apply (absent_or_null_time_uses_creation (H := sample.decoders)
           (record_of text_nulls (Some 1700000000123)) "api" _ text_nulls).
  - reflexivity.
  - reflexivity.
  - split; reflexivity.
  - reflexivity.
  - right. exists "null"%string. split; reflexivity.
Defined.

(** X11: two events that [NewEvent] returns are ordered by [Less] as
    the millisecond counts of their records are, a nil creation
    timestamp counting as 0. *)
Theorem creation_order_is_millisecond_order `{Decoders} cw1 g1 e1 cw2 g2 e2 :
  NewEvent cw1 g1 = Returns e1 → NewEvent cw2 g2 = Returns e2 →
  int64.in_range (ms_of (cloudwatchlogs.Timestamp cw1)) →
  int64.in_range (ms_of (cloudwatchlogs.Timestamp cw2)) →
  sort.Less [e1; e2] 0 1
  = Returns (ms_of (cloudwatchlogs.Timestamp cw1) <? ms_of (cloudwatchlogs.Timestamp cw2)).
Proof.
  intros He1 He2 Hr1 Hr2.
  destruct (NewEvent_inv cw1 g1 e1 He1) as (m1 & _ & Hc1 & _).
  destruct (NewEvent_inv cw2 g2 e2 He2) as (m2 & _ & Hc2 & _).
  rewrite (Less_Before [e1; e2] 0 1 e1 e2) by done.
  rewrite Hc1, Hc2, (ParseAWSTimestamp_ms_of (cloudwatchlogs.Timestamp cw1)),
    (ParseAWSTimestamp_ms_of (cloudwatchlogs.Timestamp cw2)).
  by rewrite Before_ParseAWSTimestamp.
Qed.

Lemma creation_order_is_millisecond_order_witness :
  sort.Less
    [returned (NewEvent (H := sample.decoders) (record_of text_error None) "api");
     returned (NewEvent (H := sample.decoders) (record_of text_nulls (Some 5)) "api")]
    0 1
  = Returns (ms_of None <? ms_of (Some 5)).
Proof.
  apply (creation_order_is_millisecond_order (H := sample.decoders)
           (record_of text_error None) "api" _ (record_of text_nulls (Some 5)) "api").
  - reflexivity.
  - reflexivity.
  - apply in_range_0.
  - unfold int64.in_range. simpl. lia.
Defined.

(** X12: [ParseAWSTimestamp] loses nothing: the instant it returns has
    its nanoseconds in [0, 10^9) and a whole number of milliseconds,
    and its milliseconds since 1970 are the count it was given, also
    when that count is negative. *)
Theorem ParseAWSTimestamp_round_trip ms :
  int64.in_range ms →
  UnixMilli (ParseAWSTimestamp (Some ms)) = ms
  ∧ 0 <= time.nsec (ParseAWSTimestamp (Some ms)) < 10 ^ 9
  ∧ time.nsec (ParseAWSTimestamp (Some ms)) mod 10 ^ 6 = 0.
Proof.
  intros Hms. rewrite ParseAWSTimestamp_floor by done. unfold UnixMilli. simpl.
  pose proof (Z.div_mod ms 1000 ltac:(lia)).
  pose proof (Z.mod_pos_bound ms 1000 ltac:(lia)).
  rewrite Z.div_mul by lia. rewrite Z.mod_mul by lia.
  repeat split; lia.
Qed.

Lemma ParseAWSTimestamp_round_trip_witness :
  UnixMilli (ParseAWSTimestamp (Some (-1))) = -1
  ∧ 0 <= time.nsec (ParseAWSTimestamp (Some (-1))) < 10 ^ 9
  ∧ time.nsec (ParseAWSTimestamp (Some (-1))) mod 10 ^ 6 = 0.
Proof.
  apply (ParseAWSTimestamp_round_trip (-1)). unfold int64.in_range. lia.
Defined.

(** X13: a message that is parsed without error and carries a time
    other than the zero time gives an event with exactly the parsed
    record: the creation timestamp of the record does not replace the
    time of the message. *)
Theorem embedded_time_kept `{Decoders} cwEvent group e data s :
  NewEvent cwEvent group = Returns e →
  cloudwatchlogs.Message cwEvent = Some data →
  unmarshal data zero_SlogEvent = Some s →
  time.IsZero (Time s) = false →
  Slog e = s ∧ CreationTime e = ParseAWSTimestamp (cloudwatchlogs.Timestamp cwEvent).
Proof.
  intros He Hm Hs Hz.
  destruct (NewEvent_inv cwEvent group e He) as (m & Hm' & -> & _ & ->).
  rewrite Hm in Hm'. injection Hm' as <-.
  unfold parse_message. by rewrite Hs, Hz.
Qed.

Lemma embedded_time_kept_witness :
  Slog (returned (NewEvent (H := sample.decoders) (record_of text_error (Some 5)) "api"))
  = parse_message (H := sample.decoders) text_error
  ∧ CreationTime (returned (NewEvent (H := sample.decoders)
                              (record_of text_error (Some 5)) "api"))
    = ParseAWSTimestamp (Some 5).
Proof.
  apply (embedded_time_kept (H := sample.decoders)
           (record_of text_error (Some 5)) "api" _ text_error).
  - reflexivity.
  - reflexivity.
  - reflexivity.
  - reflexivity.
Defined.

(* ================================================================== *)
(** * Further properties: the short stream name *)

Lemma uuid_text_length cls s : uuid_text cls s → String.length s = 36%nat.
Proof.
  intros (g1 & g2 & g3 & g4 & g5 & -> & L1 & L2 & L3 & L4 & L5 & _).
  repeat (rewrite length_append; cbn [String.length]). lia.
Qed.

Lemma uuid_text_first cls s :
  uuid_text cls s →
  ∃ g r, s = g +:+ String "-" r ∧ String.length g = 8%nat ∧ forallb cls g = true.
Proof.
  intros (g1 & g2 & g3 & g4 & g5 & -> & L1 & _ & _ & _ & _ & F1 & _). eauto.
Qed.

(** X14: [TaskShort] always returns, never panics; what it returns is
    the front of the stream name, and shortening again changes
    nothing. *)
Theorem TaskShort_idempotent (e : Event) :
  ∃ s rest,
    TaskShort e = Returns s
    ∧ Stream e = s +:+ rest
    ∧ TaskShort (with_Stream s e) = Returns s.
Proof.
  rewrite TaskShort_returns.
  destruct (regexp.MatchString TaskUUIDPattern (Stream e)) eqn:Hm.
  - apply TaskUUIDPattern_uuid in Hm.
    destruct (uuid_text_first _ _ Hm) as (g & r & Hs & Hl & Hg).
    exists g, (String "-" r). rewrite Hs, first_segment_group by done.
    split; [done|]. split; [done|].
    rewrite TaskShort_returns. cbn [with_Stream Stream].
    destruct (regexp.MatchString TaskUUIDPattern g) eqn:Hm'; [|done].
    apply TaskUUIDPattern_uuid, uuid_text_length in Hm'. lia.
  - exists (Stream e), EmptyString. rewrite append_nil_r.
    split; [done|]. split; [done|].
    rewrite TaskShort_returns. cbn [with_Stream Stream]. by rewrite Hm.
Qed.

(** X15: [TaskShort] changes only stream names of 36 bytes, and what it
    then returns is their first 8 bytes, all ASCII letters or digits. *)
Theorem TaskShort_lengths (e : Event) :
  TaskShort e = Returns (Stream e)
  ∨ (String.length (Stream e) = 36%nat
     ∧ ∃ s, TaskShort e = Returns s
         ∧ s = substring 0 8 (Stream e)
         ∧ String.length s = 8%nat
         ∧ forallb is_alnum s = true).
Proof.
  rewrite TaskShort_returns.
  destruct (regexp.MatchString TaskUUIDPattern (Stream e)) eqn:Hm; [|by left].
  right. apply TaskUUIDPattern_uuid in Hm.
  split; [by eapply uuid_text_length|].
  destruct (uuid_text_first _ _ Hm) as (g & r & Hs & Hl & Hg).
  exists g. rewrite Hs, first_segment_group by done.
  split; [done|]. split; [|done]. by rewrite <- Hl, substring_append_l.
Qed.

(* ================================================================== *)
(** * Further properties: the adapter for sorting *)



Lemma Swap_in_range (b : ByCreationTime) i j x y :
  b !! i = Some x → b !! j = Some y →
  sort.Swap b i j = Returns (<[j := x]> (<[i := y]> b)).
Proof. intros Hi Hj. cbn. unfold index. by rewrite Hi, Hj. Qed.

(** X16: [Swap] on two indices in range returns a slice of the same
    length in which the two events have changed places and every other
    event stays; it is a permutation, and swapping again gives the
    first slice back. *)
Theorem Swap_swaps (b : list Event) i j :
  (i < sort.Len b)%nat → (j < sort.Len b)%nat →
  ∃ b', sort.Swap b i j = Returns b'
    ∧ sort.Len b' = sort.Len b
    ∧ b' !! i = b !! j ∧ b' !! j = b !! i
    ∧ (∀ k, k ≠ i → k ≠ j → b' !! k = b !! k)
    ∧ b' ≡ₚ b
    ∧ sort.Swap b' i j = Returns b.
Proof.
  cbn [sort.Len ByCreationTime_Interface]. intros Hi Hj.
  destruct (lookup_lt_is_Some_2 b i Hi) as [x Hx].
  destruct (lookup_lt_is_Some_2 b j Hj) as [y Hy].
  exists (<[j := x]> (<[i := y]> b)).
  split; [by apply Swap_in_range|].
  assert (Hlen : length (<[j := x]> (<[i := y]> b)) = length b)
    by by rewrite !length_insert.
  assert (Hi' : <[j := x]> (<[i := y]> b) !! i = Some y).
  { destruct (decide (i = j)) as [->|Hne].
    - rewrite list_lookup_insert_eq by by rewrite length_insert. congruence.
    - rewrite list_lookup_insert_ne by done. by rewrite list_lookup_insert_eq. }
  assert (Hj' : <[j := x]> (<[i := y]> b) !! j = Some x)
    by (rewrite list_lookup_insert_eq; [done|by rewrite length_insert]).
  assert (Hother : ∀ k, k ≠ i → k ≠ j →
            <[j := x]> (<[i := y]> b) !! k = b !! k).
  { intros k Hki Hkj. by rewrite !list_lookup_insert_ne. }
  assert (Hback : <[j := y]> (<[i := x]> (<[j := x]> (<[i := y]> b))) = b).
  { apply list_eq. intros k.
    destruct (decide (k = j)) as [->|Hkj].
    - rewrite list_lookup_insert_eq by by rewrite !length_insert. done.
    - rewrite list_lookup_insert_ne by done.
      destruct (decide (k = i)) as [->|Hki].
      + rewrite list_lookup_insert_eq by by rewrite !length_insert. done.
      + rewrite list_lookup_insert_ne by done. by apply Hother. }
  split; [done|]. split; [congruence|]. split; [congruence|]. split; [done|].
  split.
  - apply Permutation_inj. split; [done|].
    exists (λ k, if decide (k = i) then j else if decide (k = j) then i else k).
    split.
    + intros k1 k2. repeat case_decide; congruence.
    + intros k. repeat case_decide; subst; rewrite ?Hi', ?Hj', ?Hother; congruence.
  - rewrite (Swap_in_range _ i j y x) by done. by rewrite Hback.
Qed.

Lemma Swap_swaps_witness :
  ∃ b', sort.Swap [event_created "a" 5; event_created "b" 1; event_created "c" 3] 0 2
        = Returns b'
    ∧ sort.Len b' = sort.Len [event_created "a" 5; event_created "b" 1; event_created "c" 3]
    ∧ b' !! 0%nat = [event_created "a" 5; event_created "b" 1; event_created "c" 3] !! 2%nat
    ∧ b' !! 2%nat = [event_created "a" 5; event_created "b" 1; event_created "c" 3] !! 0%nat
    ∧ (∀ k, k ≠ 0%nat → k ≠ 2%nat →
         b' !! k = [event_created "a" 5; event_created "b" 1; event_created "c" 3] !! k)
    ∧ b' ≡ₚ [event_created "a" 5; event_created "b" 1; event_created "c" 3]
    ∧ sort.Swap b' 0 2
      = Returns [event_created "a" 5; event_created "b" 1; event_created "c" 3].
Proof.
  apply (Swap_swaps [event_created "a" 5; event_created "b" 1; event_created "c" 3] 0 2);
    cbn; lia.
Defined.


(** X18: on indices in range, [Less] is a strict order: no event is
    before itself, two events are never before each other, and the
    order is transitive. *)
Theorem Less_strict_order (b : list Event) :
  (∀ i, (i < sort.Len b)%nat → sort.Less b i i = Returns false)
  ∧ (∀ i j, sort.Less b i j = Returns true → sort.Less b j i = Returns false)
  ∧ (∀ i j k, sort.Less b i j = Returns true → sort.Less b j k = Returns true →
       sort.Less b i k = Returns true).
Proof.
  cbn [sort.Len sort.Less ByCreationTime_Interface]. unfold index.
  split; [|split].
  - intros i Hi. destruct (lookup_lt_is_Some_2 b i Hi) as [x ->].
    cbn. f_equal. apply Before_false. lia.
  - intros i j. destruct (b !! i) as [x|], (b !! j) as [y|]; cbn; try done.
    intros [= Hxy]. f_equal. apply Before_strictly in Hxy.
    apply Before_false. unfold strictly_before in Hxy. lia.
  - intros i j k.
    destruct (b !! i) as [x|], (b !! j) as [y|], (b !! k) as [z|]; cbn; try done.
    intros [= Hxy] [= Hyz]. f_equal.
    apply Before_strictly in Hxy, Hyz. apply Before_strictly.
    unfold strictly_before in *. lia.
Qed.

Lemma Less_strict_order_witness :
  (∀ i, (i < sort.Len [event_created "a" 5; event_created "b" 1])%nat →
     sort.Less [event_created "a" 5; event_created "b" 1] i i = Returns false)
  ∧ (∀ i j, sort.Less [event_created "a" 5; event_created "b" 1] i j = Returns true →
       sort.Less [event_created "a" 5; event_created "b" 1] j i = Returns false)
  ∧ (∀ i j k,
       sort.Less [event_created "a" 5; event_created "b" 1] i j = Returns true →
       sort.Less [event_created "a" 5; event_created "b" 1] j k = Returns true →
       sort.Less [event_created "a" 5; event_created "b" 1] i k = Returns true).
Proof. exact (Less_strict_order [event_created "a" 5; event_created "b" 1]). Defined.

Lemma sink_rev_sorted_head x l :
  Forall (λ y, time.Before (CreationTime x) (CreationTime y) = false) l →
  sink_rev x l = x :: l.
Proof. destruct l as [|y l]; [done|]. simpl. by intros [-> _]%Forall_cons. Qed.

Lemma run_sorted_id r : ∀ l,
  StronglySorted created_le (reverse l ++ r) → run l r = reverse l ++ r.
Proof.
  induction r as [|x r IH]; intros l Hs; simpl.
  - by rewrite (right_id_L [] (++)).
  - rewrite sink_rev_sorted_head.
    + rewrite IH; rewrite reverse_cons, <- (assoc_L (++)); done.
    + apply Forall_forall. intros y Hy.
      apply (StronglySorted_app_1_elem_of created_le (reverse l) (x :: r) y x Hs);
        [by apply elem_of_reverse|by left].
Qed.

(** X19: the insertion sort returns a slice that is already in the
    order of the creation times unchanged. *)
Theorem sorted_slice_unchanged (b : ByCreationTime) :
  StronglySorted created_le b → sort.insertionSort b 0 (sort.Len b) = Returns b.
Proof.
  intros Hs. rewrite insertionSort_run. f_equal. by apply (run_sorted_id b []).
Qed.

Lemma sorted_slice_unchanged_witness :
  sort.insertionSort [event_created "b" 1; event_created "c" 3; event_created "a" 5]
    0 (sort.Len [event_created "b" 1; event_created "c" 3; event_created "a" 5])
  = Returns [event_created "b" 1; event_created "c" 3; event_created "a" 5].
Proof.
  apply (sorted_slice_unchanged
           [event_created "b" 1; event_created "c" 3; event_created "a" 5]).
  repeat (constructor; [|repeat (constructor; [reflexivity|]); constructor]).
  constructor.
Defined.

(** X20: sorting a slice twice is sorting it once. *)
Theorem sort_idempotent (b : ByCreationTime) :
  ∃ b', sort.insertionSort b 0 (sort.Len b) = Returns b'
    ∧ sort.insertionSort b' 0 (sort.Len b') = Returns b'.
Proof.
  exists (run [] b). split; [apply insertionSort_run|].
  rewrite insertionSort_run. f_equal.
  apply (run_sorted_id (run [] b) []), run_sorted. constructor.
Qed.
